(** * ivfflat: planner cost model of the IVFFlat index access method

    A shallow embedding of [src/ivfflat.c] (functions [EstimateProbes],
    [ivfflatcostestimate] and [ivfflatbuildphasename], with the settings
    declared by [IvfflatInit]) and the properties of the probe decision and
    of the cost arithmetic.

    C [double] is IEEE 754 binary64: it is modelled by Rocq's primitive
    [float], whose operations are the binary64 operations (round to nearest,
    ties to even), each C operation being rounded on its own (no fused
    multiply-add, no extended precision).  C [int] is a 32-bit two's
    complement integer, modelled by [Z] with its range written out.

    The file has four parts: the embedding of the code, a small theory of
    binary64 rounding built on the specification [SpecFloat] of the
    primitive operations, the properties of the cost model, and further
    properties of the ratio, of the adaptive estimate and of the probe
    decision. *)

From Stdlib Require Import String ZArith List Bool Lia Floats Uint63.
Import ListNotations.

Open Scope Z_scope.

(** * Part 1: the code *)

(** ** Machine numbers *)

Definition INT_MIN : Z := -2147483648.
Definition INT_MAX : Z := 2147483647.

(** [(double) n] for an [int] or a [BlockNumber] (uint32) [n]. *)
Definition int_to_double (n : Z) : float :=
  if n <? 0 then (- of_uint63 (Uint63.of_Z (- n)))%float
  else of_uint63 (Uint63.of_Z n).

(** The integer part of a finite binary64 number (the fraction is discarded,
    rounding toward zero). *)
Definition SFtrunc (x : spec_float) : option Z :=
  match x with
  | S754_zero _ => Some 0
  | S754_finite s m e =>
      let n := Z.shiftl (Z.pos m) e in Some (if s then - n else n)
  | S754_infinity _ | S754_nan => None
  end.

(** The conversion of a [double] to [int] (C11 6.3.1.4): the value is
    truncated toward zero; when the integer part is not an [int] (or the
    value is infinite or a NaN) the behaviour is undefined, which is [None]
    here. *)
Definition double_to_int (x : float) : option Z :=
  match SFtrunc (Prim2SF x) with
  | Some n => if (INT_MIN <=? n) && (n <=? INT_MAX) then Some n else None
  | None => None
  end.

(** ** Constants of the headers *)

(** [IVFFLAT_MIN_LISTS], [IVFFLAT_MAX_LISTS] (ivfflat.h) and
    [DEFAULT_INEQ_SEL] (PostgreSQL's utils/selfuncs.h, the decimal
    0.3333333333333333, whose binary64 value is written here in
    hexadecimal). *)
Definition IVFFLAT_MIN_LISTS : Z := 1.
Definition IVFFLAT_MAX_LISTS : Z := 32768.
Definition DEFAULT_INEQ_SEL : float := 0x1.5555555555555p-2%float.

(** ** Planner data *)

Record RestrictInfo := { norm_selec : float }.

(** [pages] is a [BlockNumber] (uint32). *)
Record RelOptInfo := { pages : Z }.

Record IndexOptInfo := {
  indexoid : Z;
  reltablespace : Z;
  tuples : float;
  indrestrictinfo : list RestrictInfo;
  rel : RelOptInfo
}.

Record PlannerInfo := { limit_tuples : float }.

(** [indexorderbys] is a list of expression nodes, of which the code only
    tests emptiness ([== NULL], the empty list [NIL]). *)
Record IndexPath := {
  indexinfo : IndexOptInfo;
  indexorderbys : list Z
}.

Record GenericCosts := {
  indexStartupCost : float;
  indexTotalCost : float;
  indexSelectivity : float;
  indexCorrelation : float;
  numIndexPages : float;
  numIndexTuples : float;
  spc_random_page_cost : float;
  num_sa_scans : float
}.

(** The five values [ivfflatcostestimate] stores through its pointers. *)
Record IndexCostEstimate := {
  est_indexStartupCost : float;
  est_indexTotalCost : float;
  est_indexSelectivity : float;
  est_indexCorrelation : float;
  est_indexPages : float
}.

(** The settings of [IvfflatInit]: the three global variables. *)
Record IvfflatGucs := {
  ivfflat_probes : Z;
  ivfflat_max_probes : Z;
  ivfflat_streaming : bool
}.

(** The values the settings can take: [ivfflat.probes] is declared with the
    range [IVFFLAT_MIN_LISTS .. IVFFLAT_MAX_LISTS]; [ivfflat.max_probes] has
    the same range and the boot value -1. *)
Definition gucs_in_range (g : IvfflatGucs) : Prop :=
  IVFFLAT_MIN_LISTS <= ivfflat_probes g <= IVFFLAT_MAX_LISTS /\
  (ivfflat_max_probes g = -1 \/
   IVFFLAT_MIN_LISTS <= ivfflat_max_probes g <= IVFFLAT_MAX_LISTS).

(** ** ivfflatbuildphasename *)

Section BuildPhase.

(** The phase codes of commands/progress.h and ivfflat.h, which this file
    includes; as the labels of one [switch] they are pairwise distinct.
    [NULL] is [None]. *)
Variable PROGRESS_CREATEIDX_SUBPHASE_INITIALIZE : Z.
Variable PROGRESS_IVFFLAT_PHASE_KMEANS : Z.
Variable PROGRESS_IVFFLAT_PHASE_ASSIGN : Z.
Variable PROGRESS_IVFFLAT_PHASE_LOAD : Z.

Definition ivfflatbuildphasename (phasenum : Z) : option string :=
  if phasenum =? PROGRESS_CREATEIDX_SUBPHASE_INITIALIZE then Some "initializing"%string
  else if phasenum =? PROGRESS_IVFFLAT_PHASE_KMEANS then Some "performing k-means"%string
  else if phasenum =? PROGRESS_IVFFLAT_PHASE_ASSIGN then Some "assigning tuples"%string
  else if phasenum =? PROGRESS_IVFFLAT_PHASE_LOAD then Some "loading tuples"%string
  else None.

End BuildPhase.

(** ** EstimateProbes *)

(** The test of the [foreach] loop: the condition's selectivity is counted. *)
Definition counted_selec (s : float) : bool :=
  ((0 <=? s) && (s <=? 1) && negb (s =? DEFAULT_INEQ_SEL))%float.

(** The [foreach] loop over [indrestrictinfo]: one step, and the loop from
    the accumulator [selectivity = 1]. *)
Definition selectivity_step (selectivity : float) (rinfo : RestrictInfo) : float :=
  if counted_selec (norm_selec rinfo)
  then (selectivity * norm_selec rinfo)%float
  else selectivity.

Definition restrict_selectivity (l : list RestrictInfo) : float :=
  fold_left selectivity_step l 1%float.

Definition tuplesPerList (path : IndexPath) (lists : Z) : float :=
  (tuples (indexinfo path)
   * restrict_selectivity (indrestrictinfo (indexinfo path))
   / int_to_double lists)%float.

Definition EstimateProbes (root : PlannerInfo) (path : IndexPath) (lists : Z)
  : option Z :=
  if (limit_tuples root <? 0)%float then Some 0
  else
    let tpl := tuplesPerList path lists in
    if (tpl =? 0)%float then Some lists
    else double_to_int (limit_tuples root / tpl)%float.

(** ** ivfflatcostestimate *)

(** Lines 136-143: the number of probes the estimate is made for. *)
Definition cost_probes (g : IvfflatGucs) (root : PlannerInfo) (path : IndexPath)
    (lists : Z) : option Z :=
  let probes := ivfflat_probes g in
  if ivfflat_streaming g then
    match EstimateProbes root path lists with
    | Some est =>
        let probes := Z.max probes est in
        Some (if negb (ivfflat_max_probes g =? -1)
              then Z.min probes (ivfflat_max_probes g)
              else probes)
    | None => None
    end
  else Some probes.

(** Lines 145-148: the ratio of lists to visit. *)
Definition cost_ratio (probes lists : Z) : float :=
  let ratio := (int_to_double probes / int_to_double lists)%float in
  if (1 <? ratio)%float then 1%float else ratio.

(** [MemSet(&costs, 0, sizeof(costs))]. *)
Definition zero_costs : GenericCosts :=
  {| indexStartupCost := 0; indexTotalCost := 0; indexSelectivity := 0;
     indexCorrelation := 0; numIndexPages := 0; numIndexTuples := 0;
     spc_random_page_cost := 0; num_sa_scans := 0 |}.

Definition set_numIndexTuples (c : GenericCosts) (v : float) : GenericCosts :=
  {| indexStartupCost := indexStartupCost c; indexTotalCost := indexTotalCost c;
     indexSelectivity := indexSelectivity c; indexCorrelation := indexCorrelation c;
     numIndexPages := numIndexPages c; numIndexTuples := v;
     spc_random_page_cost := spc_random_page_cost c; num_sa_scans := num_sa_scans c |}.

(** Lines 130 and 155: the [GenericCosts] handed to [genericcostestimate]. *)
Definition generic_input (path : IndexPath) (ratio : float) : GenericCosts :=
  set_numIndexTuples zero_costs (tuples (indexinfo path) * ratio)%float.

(** Lines 161-174: the adjustment of the total cost. *)
Definition adjust_total_cost (costs : GenericCosts) (spc_seq_page_cost : float)
    (relpages : Z) (ratio : float) : float :=
  if ((int_to_double relpages <? numIndexPages costs) && (ratio <? 0.5))%float
  then
    let total :=
      (indexTotalCost costs
       - numIndexPages costs * (spc_random_page_cost costs - spc_seq_page_cost))%float in
    (total - (numIndexPages costs - int_to_double relpages) * spc_seq_page_cost)%float
  else
    (indexTotalCost costs
     - 0.5 * numIndexPages costs * (spc_random_page_cost costs - spc_seq_page_cost))%float.

(** Lines 161-188: the estimate made from the generic costs. *)
Definition finish_estimate (costs : GenericCosts) (spc_seq_page_cost : float)
    (relpages : Z) (ratio : float) : IndexCostEstimate :=
  let total := adjust_total_cost costs spc_seq_page_cost relpages ratio in
  let selectivity :=
    if (ratio <? indexSelectivity costs)%float then ratio
    else indexSelectivity costs in
  {| est_indexStartupCost := total;
     est_indexTotalCost := total;
     est_indexSelectivity := selectivity;
     est_indexCorrelation := indexCorrelation costs;
     est_indexPages := numIndexPages costs |}.

(** The estimate of a path with no ORDER BY operator. *)
Definition never_use_index : IndexCostEstimate :=
  {| est_indexStartupCost := infinity; est_indexTotalCost := infinity;
     est_indexSelectivity := 0; est_indexCorrelation := 0; est_indexPages := 0 |}.

Section CostEstimate.

(** What the function calls outside this file: the list count stored in
    the index's meta page ([IvfflatGetMetaPageInfo] between [index_open]
    and [index_close]), PostgreSQL's generic cost model, which fills the
    [GenericCosts] it is given, and the sequential page cost of a
    tablespace. *)
Variable IvfflatGetMetaPageInfo : Z -> Z.
Variable genericcostestimate :
  PlannerInfo -> IndexPath -> float -> GenericCosts -> GenericCosts.
Variable get_tablespace_page_costs : Z -> float.

Definition ivfflatcostestimate (g : IvfflatGucs) (root : PlannerInfo)
    (path : IndexPath) (loop_count : float) : option IndexCostEstimate :=
  match indexorderbys path with
  | [] => Some never_use_index
  | _ :: _ =>
      let lists := IvfflatGetMetaPageInfo (indexoid (indexinfo path)) in
      match cost_probes g root path lists with
      | None => None
      | Some probes =>
          let ratio := cost_ratio probes lists in
          let costs :=
            genericcostestimate root path loop_count (generic_input path ratio) in
          let spc_seq_page_cost :=
            get_tablespace_page_costs (reltablespace (indexinfo path)) in
          Some (finish_estimate costs spc_seq_page_cost
                  (pages (rel (indexinfo path))) ratio)
      end
  end.

End CostEstimate.

(** ** The specification's wording, for comparison with the code *)

(** The combined selectivity: the product, from 1.0, of the selectivities
    that lie in [0, 1] and are not the default-inequality placeholder. *)
Definition genuine_selectivity (s : float) : bool :=
  ((0 <=? s) && (s <=? 1))%float && negb (s =? DEFAULT_INEQ_SEL)%float.

Definition combined_selectivity (l : list RestrictInfo) : float :=
  fold_left PrimFloat.mul (filter genuine_selectivity (map norm_selec l)) 1%float.

(** The factor a condition stands for: its selectivity, or 1. *)
Definition selectivity_factor (rinfo : RestrictInfo) : float :=
  if genuine_selectivity (norm_selec rinfo) then norm_selec rinfo else 1%float.

(** The least integer not below a finite binary64 number, as an [int]. *)
Definition SFceil (x : spec_float) : option Z :=
  match x with
  | S754_zero _ => Some 0
  | S754_finite s m e =>
      Some (if s then - Z.shiftl (Z.pos m) e else - Z.shiftl (Z.neg m) e)
  | S754_infinity _ | S754_nan => None
  end.

Definition double_ceil_to_int (x : float) : option Z :=
  match SFceil (Prim2SF x) with
  | Some n => if (INT_MIN <=? n) && (n <=? INT_MAX) then Some n else None
  | None => None
  end.

(** The smaller of two numbers. *)
Definition min_double (x y : float) : float :=
  if (x <=? y)%float then x else y.

(** A generic cost model to run the estimator on: one page per hundred
    index tuples, each page at the random page cost 4, every row selected. *)
Definition sample_genericcostestimate (root : PlannerInfo) (path : IndexPath)
    (loop_count : float) (costs : GenericCosts) : GenericCosts :=
  let npages := (numIndexTuples costs / 100)%float in
  {| indexStartupCost := 0; indexTotalCost := (npages * 4)%float;
     indexSelectivity := 1; indexCorrelation := 0;
     numIndexPages := npages; numIndexTuples := numIndexTuples costs;
     spc_random_page_cost := 4; num_sa_scans := 1 |}.

(** An ordered path over an index of [tup] tuples whose restrictions have
    the selectivities [sels], on a relation of [relpages] pages. *)
Definition sample_path (tup : float) (sels : list float) (relpages : Z) : IndexPath :=
  {| indexinfo := {| indexoid := 1; reltablespace := 0; tuples := tup;
                     indrestrictinfo := map Build_RestrictInfo sels;
                     rel := {| pages := relpages |} |};
     indexorderbys := [1] |}.

(** * Part 2: binary64 rounding *)

(** ** Definitions *)

(** The exponent of the format: [fexp prec emax] of [SpecFloat]. *)
Definition fexp64 (e : Z) : Z := Z.max (e - 53) (-1074).

Definition inexact (mrs : shr_record) : bool := shr_r mrs || shr_s mrs.

(** The float a rounded mantissa [mr <= 2^53] at exponent [E] stands for. *)
Definition round_result (s : bool) (mr E : Z) : spec_float :=
  if mr =? 0 then S754_zero s
  else if mr <? 2 ^ 53
       then (if E <=? 971 then S754_finite s (Z.to_pos mr) E else S754_infinity s)
       else (if E + 1 <=? 971 then S754_finite s (Z.to_pos (2 ^ 52)) (E + 1)
             else S754_infinity s).

(** The rank of a binary64 number: its value in units of 2^-1074 (the least
    positive number), the infinities beyond every finite number.  Two
    numbers that are not NaN compare as their ranks do. *)
Definition SFrank (x : spec_float) : Z :=
  match x with
  | S754_zero _ | S754_nan => 0
  | S754_infinity s => if s then - 2 ^ 2100 else 2 ^ 2100
  | S754_finite s m e =>
      let v := Z.pos m * 2 ^ (e + 1074) in if s then - v else v
  end.

Definition Frank (x : float) : Z := SFrank (Prim2SF x).

Definition SFis_nan (x : spec_float) : bool :=
  match x with S754_nan => true | _ => false end.

Definition SFfinite (x : spec_float) : bool :=
  match x with
  | S754_zero _ | S754_finite _ _ _ => true
  | S754_infinity _ | S754_nan => false
  end.

(** [rounds_to k V r]: the float [r] is a rounding of the real number
    [V * 2^-(1074+k)]: it is not a NaN, and no representable number lies
    strictly between the two. *)
Definition rounds_to (k V : Z) (r : spec_float) : Prop :=
  SFis_nan r = false /\
  forall X, valid_binary X = true -> SFfinite X = true ->
    (V <= SFrank X * 2 ^ k -> SFrank r <= SFrank X) /\
    (SFrank X * 2 ^ k <= V -> SFrank X <= SFrank r).

Module Binary64.

(** The two large constants of the rank, [2 ^ 2100] (the infinities) and
    [2 ^ 1074] (the unit), are abstracted before the arithmetic is solved:
    linear reasoning seldom needs their values. *)
Ltac hide_big :=
  let P := fresh "P" in
  let Q := fresh "Q" in
  set (P := 2 ^ 2100) in *; set (Q := 2 ^ 1074) in *; clearbody P Q.
Ltac blia := first [ solve [hide_big; lia] | lia ].
Ltac bnia := first [ solve [hide_big; nia] | nia ].

(** ** Digits *)

Lemma fexp_fexp64 e : fexp prec emax e = fexp64 e.
Proof. reflexivity. Qed.

Lemma digits2_pos_bounds (m : positive) :
  2 ^ (Z.pos (digits2_pos m) - 1) <= Z.pos m < 2 ^ Z.pos (digits2_pos m).
Proof.
  induction m as [m IH | m IH |]; cbn [digits2_pos].
  - rewrite Pos2Z.inj_succ.
    replace (Z.succ (Z.pos (digits2_pos m)) - 1) with (Z.pos (digits2_pos m)) by blia.
    rewrite Z.pow_succ_r by blia.
    replace (Z.pos (digits2_pos m)) with (Z.succ (Z.pos (digits2_pos m) - 1)) at 1 by blia.
    rewrite Z.pow_succ_r by blia. blia.
  - rewrite Pos2Z.inj_succ.
    replace (Z.succ (Z.pos (digits2_pos m)) - 1) with (Z.pos (digits2_pos m)) by blia.
    rewrite Z.pow_succ_r by blia.
    replace (Z.pos (digits2_pos m)) with (Z.succ (Z.pos (digits2_pos m) - 1)) at 1 by blia.
    rewrite Z.pow_succ_r by blia. blia.
  - cbn. blia.
Qed.

Lemma Zdigits2_bounds (m : Z) :
  0 < m -> 2 ^ (Zdigits2 m - 1) <= m < 2 ^ Zdigits2 m.
Proof.
  destruct m as [|p|p]; try blia. intros _. apply digits2_pos_bounds.
Qed.

Lemma Zdigits2_nonneg m : 0 <= Zdigits2 m.
Proof. destruct m; cbn; blia. Qed.

Lemma pow2_lt_mono_inv a b : 0 <= b -> 2 ^ a < 2 ^ b -> a < b.
Proof.
  intros Hb H. destruct (Z_lt_le_dec a b) as [|Hab]; [assumption|].
  exfalso. assert (2 ^ b <= 2 ^ a) by (apply Z.pow_le_mono_r; blia). blia.
Qed.

(** The digits of a number are determined by its bounds. *)
Lemma Zdigits2_le_iff (m k : Z) :
  0 <= m -> 0 <= k -> (Zdigits2 m <= k <-> m < 2 ^ k).
Proof.
  intros Hm Hk. destruct (Z.eq_dec m 0) as [->|Hne].
  - cbn. split; intros _; [apply Z.pow_pos_nonneg; blia | blia].
  - pose proof (Zdigits2_bounds m ltac:(blia)) as [Hlo Hhi]. split; intros H.
    + apply Z.lt_le_trans with (1 := Hhi). apply Z.pow_le_mono_r; blia.
    + assert (Zdigits2 m - 1 < k); [|blia]. apply pow2_lt_mono_inv; [blia|]. blia.
Qed.

(** ** Right shifts *)

Lemma iter_pos_nat {A} (f : A -> A) p x :
  iter_pos f p x = Nat.iter (Pos.to_nat p) f x.
Proof.
  revert x. induction p as [p IH|p IH|]; intros x; cbn [iter_pos].
  - rewrite !IH. rewrite Pos2Nat.inj_xI. cbn [Nat.iter Nat.mul].
    rewrite <- Nat.iter_add. rewrite Nat.add_0_r.
    rewrite <- (Nat.iter_succ_r). rewrite Nat.iter_succ. reflexivity.
  - rewrite !IH. rewrite Pos2Nat.inj_xO. cbn [Nat.mul]. rewrite Nat.add_0_r.
    rewrite <- Nat.iter_add. reflexivity.
  - reflexivity.
Qed.

Lemma shr_1_spec mrs :
  0 <= shr_m mrs ->
  shr_1 mrs = {| shr_m := shr_m mrs / 2; shr_r := Z.odd (shr_m mrs);
                 shr_s := shr_r mrs || shr_s mrs |}.
Proof.
  destruct mrs as [m r s]. cbn [shr_m shr_r shr_s]. intros Hm.
  rewrite <- Z.div2_div.
  destruct m as [|[p|p|]|p]; try blia; reflexivity.
Qed.

Lemma mod_pow2_succ m k :
  0 <= k ->
  (m mod 2 ^ (k + 1) = 0 <-> m mod 2 ^ k = 0 /\ Z.odd (m / 2 ^ k) = false).
Proof.
  intros Hk. rewrite Z.pow_add_r by blia. change (2 ^ 1) with 2.
  assert (Hp : 0 < 2 ^ k) by (apply Z.pow_pos_nonneg; blia).
  rewrite Z.rem_mul_r by blia.
  pose proof (Z.mod_pos_bound m (2 ^ k) Hp) as Hb.
  rewrite (Zmod_odd (m / 2 ^ k)).
  destruct (Z.odd (m / 2 ^ k)); split; intros H; try blia.
Qed.

Lemma shr_iter_spec m n :
  0 <= m ->
  let x := Nat.iter n shr_1 {| shr_m := m; shr_r := false; shr_s := false |} in
  shr_m x = m / 2 ^ Z.of_nat n /\
  (inexact x = false <-> m mod 2 ^ Z.of_nat n = 0).
Proof.
  intros Hm. induction n as [|n IH].
  - cbn. rewrite Z.div_1_r, Z.mod_1_r. tauto.
  - cbn zeta in *. rewrite Nat.iter_succ.
    destruct IH as [IHm IHx].
    set (x := Nat.iter n shr_1 _) in *.
    assert (Hx : 0 <= shr_m x).
    { rewrite IHm. apply Z.div_pos; [blia | apply Z.pow_pos_nonneg; blia]. }
    rewrite (shr_1_spec x Hx). unfold inexact in *. cbn [shr_m shr_r shr_s].
    rewrite Nat2Z.inj_succ, <- Z.add_1_r. split.
    + rewrite IHm, Z.pow_add_r by blia. change (2 ^ 1) with 2.
      rewrite Z.div_div; [reflexivity | | blia].
      assert (0 < 2 ^ Z.of_nat n) by (apply Z.pow_pos_nonneg; blia). blia.
    + rewrite mod_pow2_succ by blia. rewrite <- IHm, <- IHx.
      rewrite orb_false_iff. tauto.
Qed.

Lemma shr_iter_m mrs n :
  0 <= shr_m mrs ->
  shr_m (Nat.iter n shr_1 mrs) = shr_m mrs / 2 ^ Z.of_nat n.
Proof.
  intros Hm. induction n as [|n IH].
  - cbn. now rewrite Z.div_1_r.
  - rewrite Nat.iter_succ.
    assert (Hx : 0 <= shr_m (Nat.iter n shr_1 mrs)).
    { rewrite IH. apply Z.div_pos; [blia | apply Z.pow_pos_nonneg; blia]. }
    rewrite (shr_1_spec _ Hx). cbn [shr_m]. rewrite IH.
    rewrite Nat2Z.inj_succ, <- Z.add_1_r, Z.pow_add_r by blia. change (2 ^ 1) with 2.
    rewrite Z.div_div; [reflexivity | | blia].
    assert (0 < 2 ^ Z.of_nat n) by (apply Z.pow_pos_nonneg; blia). blia.
Qed.

Lemma shr_record_of_loc_m m l : shr_m (shr_record_of_loc m l) = m.
Proof. destruct l as [|[]]; reflexivity. Qed.

Lemma loc_of_shr_record_of_loc m l : loc_of_shr_record (shr_record_of_loc m l) = l.
Proof. destruct l as [|[]]; reflexivity. Qed.

Lemma loc_exact_inexact mrs : loc_of_shr_record mrs = loc_Exact <-> inexact mrs = false.
Proof. destruct mrs as [m [] []]; cbn; split; intros H; congruence. Qed.

Lemma round_nearest_even_bounds m l :
  m <= round_nearest_even m l <= m + 1.
Proof. destruct l as [|[]]; cbn; try blia. destruct (Z.even m); blia. Qed.

Lemma round_nearest_even_exact m : round_nearest_even m loc_Exact = m.
Proof. reflexivity. Qed.

(** The first shift of [binary_round_aux]. *)
Lemma shr_fexp_spec m e l :
  0 <= m ->
  let E := fexp64 (Zdigits2 m + e) in
  e <= E ->
  let '(mrs, e') := shr_fexp prec emax m e l in
  e' = E /\ shr_m mrs = m / 2 ^ (E - e) /\
  (l = loc_Exact -> m mod 2 ^ (E - e) = 0 -> loc_of_shr_record mrs = loc_Exact).
Proof.
  intros Hm E HE. unfold shr_fexp. rewrite fexp_fexp64. fold E.
  destruct (E - e) as [|p|p] eqn:Hn; try blia; cbn [shr].
  - split; [blia|]. rewrite shr_record_of_loc_m, Z.div_1_r. split; [reflexivity|].
    intros -> _. reflexivity.
  - split; [blia|]. rewrite iter_pos_nat.
    rewrite shr_iter_m by (rewrite shr_record_of_loc_m; blia).
    rewrite shr_record_of_loc_m, positive_nat_Z. split; [reflexivity|].
    intros -> Hmod. cbn [shr_record_of_loc].
    apply loc_exact_inexact.
    pose proof (shr_iter_spec m (Pos.to_nat p) Hm) as [_ Hx].
    apply Hx. now rewrite positive_nat_Z.
Qed.

(** ** The shape of a rounded result *)

Lemma second_shift_small s mr E :
  0 <= mr < 2 ^ 53 -> -1074 <= E ->
  (let '(mrs'', e'') := shr_fexp prec emax mr E loc_Exact in
   match shr_m mrs'' with
   | Z0 => S754_zero s
   | Zpos m => if Z.leb e'' (Z.sub emax prec) then S754_finite s m e'' else S754_infinity s
   | _ => S754_nan
   end) = round_result s mr E.
Proof.
  intros Hmr HE. unfold shr_fexp. rewrite fexp_fexp64.
  assert (Hd : Zdigits2 mr <= 53) by (apply Zdigits2_le_iff; blia).
  assert (Hn : fexp64 (Zdigits2 mr + E) - E <= 0) by (unfold fexp64; blia).
  unfold round_result.
  destruct (fexp64 (Zdigits2 mr + E) - E) as [|p|p]; try blia; cbn [shr shr_record_of_loc shr_m];
    (destruct mr as [|q|q]; [reflexivity | | blia]);
    replace (Z.pos q =? 0) with false by (symmetry; apply Z.eqb_neq; blia);
    replace (Z.pos q <? 2 ^ 53) with true by (symmetry; apply Z.ltb_lt; blia);
    reflexivity.
Qed.

Lemma second_shift_carry s E :
  -1074 <= E ->
  (let '(mrs'', e'') := shr_fexp prec emax (2 ^ 53) E loc_Exact in
   match shr_m mrs'' with
   | Z0 => S754_zero s
   | Zpos m => if Z.leb e'' (Z.sub emax prec) then S754_finite s m e'' else S754_infinity s
   | _ => S754_nan
   end) = round_result s (2 ^ 53) E.
Proof.
  intros HE. unfold shr_fexp. rewrite fexp_fexp64.
  change (Zdigits2 (2 ^ 53)) with 54.
  replace (fexp64 (54 + E) - E) with 1 by (unfold fexp64; blia).
  reflexivity.
Qed.

Lemma binary_round_aux_form s m e l :
  0 <= m ->
  let E := fexp64 (Zdigits2 m + e) in
  e <= E ->
  exists mr,
    m / 2 ^ (E - e) <= mr <= m / 2 ^ (E - e) + 1 /\
    (l = loc_Exact -> m mod 2 ^ (E - e) = 0 -> mr = m / 2 ^ (E - e)) /\
    mr <= 2 ^ 53 /\
    binary_round_aux prec emax s m e l = round_result s mr E.
Proof.
  intros Hm E HE. unfold binary_round_aux.
  pose proof (shr_fexp_spec m e l Hm HE) as H1. fold E in H1.
  destruct (shr_fexp prec emax m e l) as [mrs e'].
  destruct H1 as (-> & Hm1 & Hex).
  set (mr := round_nearest_even (shr_m mrs) (loc_of_shr_record mrs)).
  exists mr.
  pose proof (round_nearest_even_bounds (shr_m mrs) (loc_of_shr_record mrs)) as Hb.
  fold mr in Hb. rewrite Hm1 in Hb.
  assert (Hp : 0 < 2 ^ (E - e)) by (apply Z.pow_pos_nonneg; blia).
  assert (Hlt : m / 2 ^ (E - e) < 2 ^ 53).
  { apply Z.div_lt_upper_bound; [blia|]. rewrite <- Z.pow_add_r by blia.
    destruct (Z.eq_dec m 0) as [->|Hne]; [apply Z.pow_pos_nonneg; blia|].
    pose proof (Zdigits2_bounds m ltac:(blia)) as [_ Hhi].
    apply Z.lt_le_trans with (1 := Hhi). apply Z.pow_le_mono_r; [blia|].
    unfold E, fexp64. blia. }
  assert (H0 : 0 <= m / 2 ^ (E - e)) by (apply Z.div_pos; blia).
  assert (HEmin : -1074 <= E) by (unfold E, fexp64; blia).
  split; [exact Hb|]. split.
  { intros Hl Hmod. unfold mr. rewrite (Hex Hl Hmod). cbn. exact Hm1. }
  split; [blia|].
  destruct (Z.eq_dec mr (2 ^ 53)) as [Heq|Hne].
  - rewrite Heq. apply second_shift_carry. exact HEmin.
  - apply second_shift_small; blia.
Qed.

(** ** Ranks of rounded results *)

Lemma pow2_pos k : 0 <= k -> 0 < 2 ^ k.
Proof. intros. apply Z.pow_pos_nonneg; blia. Qed.

Lemma pow2_split a b c : b <= a -> a <= c -> 2 ^ (c - b) = 2 ^ (c - a) * 2 ^ (a - b).
Proof. intros. rewrite <- Z.pow_add_r by blia. f_equal. blia. Qed.

Lemma rank_round_result_finite mr E :
  0 <= mr <= 2 ^ 53 -> -1074 <= E ->
  (mr < 2 ^ 53 -> E <= 971) -> (mr = 2 ^ 53 -> E + 1 <= 971) ->
  SFrank (round_result false mr E) = mr * 2 ^ (E + 1074).
Proof.
  intros Hmr HE H1 H2. unfold round_result.
  destruct (Z.eqb_spec mr 0) as [->|Hne]; [reflexivity|].
  destruct (Z.ltb_spec mr (2 ^ 53)) as [Hlt|Hge].
  - destruct (Z.leb_spec E 971); [|blia]. cbn [SFrank]. rewrite Z2Pos.id by blia. reflexivity.
  - assert (mr = 2 ^ 53) by blia. subst mr.
    destruct (Z.leb_spec (E + 1) 971); [|blia]. cbn [SFrank].
    replace (E + 1 + 1074) with (1 + (E + 1074)) by blia.
    rewrite Z.pow_add_r by blia. rewrite Z2Pos.id by (apply pow2_pos; blia).
    change (2 ^ 53) with (2 ^ 52 * 2 ^ 1). blia.
Qed.

Lemma rank_round_result_cases mr E :
  0 <= mr <= 2 ^ 53 -> -1074 <= E ->
  SFrank (round_result false mr E) = mr * 2 ^ (E + 1074) \/
  SFrank (round_result false mr E) = 2 ^ 2100.
Proof.
  intros Hmr HE. unfold round_result.
  destruct (Z.eqb_spec mr 0) as [->|Hne]; [left; reflexivity|].
  destruct (Z.ltb_spec mr (2 ^ 53)) as [Hlt|Hge].
  - destruct (Z.leb_spec E 971); [left|right; reflexivity].
    cbn [SFrank]. rewrite Z2Pos.id by blia. reflexivity.
  - assert (mr = 2 ^ 53) by blia. subst mr.
    destruct (Z.leb_spec (E + 1) 971); [left|right; reflexivity]. cbn [SFrank].
    replace (E + 1 + 1074) with (1 + (E + 1074)) by blia.
    rewrite Z.pow_add_r by blia. rewrite Z2Pos.id by (apply pow2_pos; blia).
    change (2 ^ 53) with (2 ^ 52 * 2 ^ 1). blia.
Qed.

Lemma rank_finite_lt_inf mX eX :
  0 < mX < 2 ^ 53 -> -1074 <= eX <= 971 -> mX * 2 ^ (eX + 1074) < 2 ^ 2100.
Proof.
  intros Hm He.
  assert (2 ^ (eX + 1074) <= 2 ^ 2045) by (apply Z.pow_le_mono_r; blia).
  assert (0 < 2 ^ (eX + 1074)) by (apply pow2_pos; blia).
  replace (2 ^ 2100) with (2 ^ 53 * 2 ^ 2045 * 4) by (rewrite <- !Z.pow_add_r by blia; reflexivity).
  assert (0 < 2 ^ 2045) by (apply pow2_pos; blia).
  bnia.
Qed.

(** Rounding never goes below a representable number under the exact value
    (which lies in the interval from [m] to [m + 1] at the exponent [e]). *)
Lemma round_lower m e mr mX eX b :
  0 <= m ->
  let E := fexp64 (Zdigits2 m + e) in
  e <= E ->
  m / 2 ^ (E - e) <= mr <= 2 ^ 53 ->
  0 < mX < 2 ^ 53 -> -1074 <= eX <= 971 ->
  b <= e -> b <= eX ->
  mX * 2 ^ (eX - b) < (m + 1) * 2 ^ (e - b) ->
  mX * 2 ^ (eX + 1074) <= SFrank (round_result false mr E).
Proof.
  intros Hm E HE Hmr HmX HeX Hbe HbX Hlt.
  assert (HEdef : E = fexp64 (Zdigits2 m + e)) by reflexivity.
  clearbody E. unfold fexp64 in HEdef.
  assert (HEmin : -1074 <= E) by blia.
  assert (Hpe : 0 < 2 ^ (e - b)) by (apply pow2_pos; blia).
  assert (HpX : 0 < 2 ^ (eX - b)) by (apply pow2_pos; blia).
  assert (HpEe : 0 < 2 ^ (E - e)) by (apply pow2_pos; blia).
  assert (H0 : 0 <= m / 2 ^ (E - e)) by (apply Z.div_pos; blia).
  pose proof (Zdigits2_nonneg m) as Hd0.
  assert (Hfin : mX * 2 ^ (eX + 1074) <= mr * 2 ^ (E + 1074)).
  { assert (HpE : 0 < 2 ^ (E + 1074)) by (apply pow2_pos; blia).
    destruct (Z_le_gt_dec E eX) as [HEX|HEX].
    - (* X is on the grid of exponent E *)
      assert (Hq : mX * 2 ^ (eX - E) <= m / 2 ^ (E - e)).
      { apply Z.div_le_lower_bound; [blia|].
        assert (Hs1 : 2 ^ (eX - b) = 2 ^ (eX - E) * 2 ^ (E - b))
          by (apply pow2_split; blia).
        assert (Hs2 : 2 ^ (E - b) = 2 ^ (E - e) * 2 ^ (e - b))
          by (apply pow2_split; blia).
        rewrite Hs1, Hs2 in Hlt.
        assert (0 < 2 ^ (eX - E)) by (apply pow2_pos; blia).
        assert (Hlt' : 2 ^ (E - e) * (mX * 2 ^ (eX - E)) < m + 1).
        { apply Z.mul_lt_mono_pos_r with (p := 2 ^ (e - b)); [blia|]. blia. }
        blia. }
      replace (eX + 1074) with ((eX - E) + (E + 1074)) by blia.
      rewrite (Z.pow_add_r 2 (eX - E) (E + 1074)) by blia.
      assert (0 < 2 ^ (eX - E)) by (apply pow2_pos; blia). bnia.
    - (* X lies below the binade of the result *)
      assert (Hmpos : 0 < m).
      { destruct (Z.eq_dec m 0) as [->|]; [|blia]. cbn in HEdef. blia. }
      pose proof (Zdigits2_bounds m Hmpos) as [Hdlo Hdhi].
      assert (HEd : E = Zdigits2 m + e - 53) by blia.
      assert (H52 : 2 ^ 52 <= m / 2 ^ (E - e)).
      { apply Z.div_le_lower_bound; [blia|]. rewrite <- Z.pow_add_r by blia.
        replace (E - e + 52) with (Zdigits2 m - 1) by blia. blia. }
      assert (2 ^ (eX + 1074) * 2 <= 2 ^ (E + 1074)).
      { replace (2 ^ (eX + 1074) * 2) with (2 ^ (eX + 1074 + 1))
          by (rewrite Z.pow_add_r by blia; reflexivity).
        apply Z.pow_le_mono_r; blia. }
      assert (0 < 2 ^ (eX + 1074)) by (apply pow2_pos; blia).
      change (2 ^ 53) with (2 ^ 52 * 2) in HmX. bnia. }
  destruct (rank_round_result_cases mr E ltac:(blia) HEmin) as [-> | ->].
  - exact Hfin.
  - apply Z.lt_le_incl. apply rank_finite_lt_inf; blia.
Qed.

(** Rounding an exactly known value never goes above a representable number
    over it. *)
Lemma round_upper m e mr mX eX b :
  0 < m ->
  let E := fexp64 (Zdigits2 m + e) in
  e <= E ->
  m / 2 ^ (E - e) <= mr <= m / 2 ^ (E - e) + 1 ->
  (m mod 2 ^ (E - e) = 0 -> mr = m / 2 ^ (E - e)) ->
  0 < mX < 2 ^ 53 -> -1074 <= eX <= 971 ->
  b <= e -> b <= eX ->
  m * 2 ^ (e - b) <= mX * 2 ^ (eX - b) ->
  SFrank (round_result false mr E) <= mX * 2 ^ (eX + 1074).
Proof.
  intros Hm E HE Hmr Hex HmX HeX Hbe HbX Hle.
  assert (HEdef : E = fexp64 (Zdigits2 m + e)) by reflexivity.
  clearbody E. unfold fexp64 in HEdef.
  assert (HEmin : -1074 <= E) by blia.
  assert (Hpe : 0 < 2 ^ (e - b)) by (apply pow2_pos; blia).
  assert (HpX : 0 < 2 ^ (eX - b)) by (apply pow2_pos; blia).
  assert (HpEe : 0 < 2 ^ (E - e)) by (apply pow2_pos; blia).
  pose proof (Zdigits2_bounds m Hm) as [Hdlo Hdhi].
  pose proof (Zdigits2_nonneg m) as Hd0.
  (* the exponent of the result is at most that of X *)
  assert (HEX : E <= eX).
  { destruct (Z_le_gt_dec E eX) as [|Hgt]; [assumption|exfalso].
    assert (HEd : E = Zdigits2 m + e - 53) by blia.
    assert (Hs : 2 ^ (Zdigits2 m - 1) * 2 ^ (e - b) = 2 ^ 53 * 2 ^ (E - 1 - b))
      by (rewrite <- !Z.pow_add_r by blia; f_equal; blia).
    assert (2 ^ (eX - b) <= 2 ^ (E - 1 - b)) by (apply Z.pow_le_mono_r; blia).
    assert (0 < 2 ^ (E - 1 - b)) by (apply pow2_pos; blia).
    bnia. }
  set (MX := mX * 2 ^ (eX - E)).
  assert (HpXE : 0 < 2 ^ (eX - E)) by (apply pow2_pos; blia).
  assert (HmMX : m <= MX * 2 ^ (E - e)).
  { unfold MX.
    assert (Hs1 : 2 ^ (eX - b) = 2 ^ (eX - E) * 2 ^ (E - b)) by (apply pow2_split; blia).
    assert (Hs2 : 2 ^ (E - b) = 2 ^ (E - e) * 2 ^ (e - b)) by (apply pow2_split; blia).
    rewrite Hs1, Hs2 in Hle.
    apply Z.mul_le_mono_pos_r with (p := 2 ^ (e - b)); [blia|]. blia. }
  assert (Hmr' : mr <= MX).
  { pose proof (Z.div_mod m (2 ^ (E - e)) ltac:(blia)) as Hdm.
    pose proof (Z.mod_pos_bound m (2 ^ (E - e)) HpEe) as Hmb.
    destruct (Z.eq_dec (m mod 2 ^ (E - e)) 0) as [H0|Hn0].
    - rewrite (Hex H0). bnia.
    - assert (m / 2 ^ (E - e) < MX) by bnia. blia. }
  assert (H0 : 0 <= m / 2 ^ (E - e)) by (apply Z.div_pos; blia).
  assert (HMX : MX * 2 ^ (E + 1074) = mX * 2 ^ (eX + 1074)).
  { unfold MX. replace (eX + 1074) with ((eX - E) + (E + 1074)) by blia.
    rewrite (Z.pow_add_r 2 (eX - E) (E + 1074)) by blia. blia. }
  assert (HpE : 0 < 2 ^ (E + 1074)) by (apply pow2_pos; blia).
  (* no overflow *)
  assert (Hcarry : mr = 2 ^ 53 -> E + 1 <= eX).
  { intros Heq. destruct (Z.eq_dec E eX) as [Heq'|]; [|blia]. exfalso.
    unfold MX in Hmr'. rewrite Heq', Z.sub_diag in Hmr'. cbn in Hmr'. blia. }
  assert (Hmr53 : mr <= 2 ^ 53).
  { assert (m / 2 ^ (E - e) < 2 ^ 53); [|blia].
    apply Z.div_lt_upper_bound; [blia|]. rewrite <- Z.pow_add_r by blia.
    apply Z.lt_le_trans with (1 := Hdhi). apply Z.pow_le_mono_r; blia. }
  rewrite rank_round_result_finite; try blia.
  rewrite <- HMX. bnia.
Qed.

(** ** Comparison and rank *)

Lemma valid_finite_bounds s m e :
  valid_binary (S754_finite s m e) = true ->
  fexp64 (Z.pos (digits2_pos m) + e) = e /\ -1074 <= e <= 971 /\ Z.pos m < 2 ^ 53.
Proof.
  cbn [valid_binary]. unfold bounded, canonical_mantissa. rewrite fexp_fexp64.
  intros H. apply andb_prop in H as [Hc Hb].
  apply Z.eqb_eq in Hc. apply Z.leb_le in Hb. change (emax - prec) with 971 in Hb.
  split; [exact Hc|]. unfold fexp64 in Hc. split; [blia|].
  apply (Zdigits2_le_iff (Z.pos m) 53); [blia|blia|]. cbn [Zdigits2]. blia.
Qed.

(** Among canonical numbers the exponent decides the order. *)
Lemma canonical_exponent_lt m1 e1 m2 e2 :
  fexp64 (Z.pos (digits2_pos m1) + e1) = e1 ->
  fexp64 (Z.pos (digits2_pos m2) + e2) = e2 ->
  e1 < e2 ->
  Z.pos m1 * 2 ^ (e1 + 1074) < Z.pos m2 * 2 ^ (e2 + 1074).
Proof.
  unfold fexp64. intros H1 H2 Hlt.
  pose proof (digits2_pos_bounds m1) as [_ Hhi1].
  pose proof (digits2_pos_bounds m2) as [Hlo2 _].
  assert (Hd2 : Z.pos (digits2_pos m2) = 53) by blia.
  rewrite Hd2 in Hlo2. change (2 ^ (53 - 1)) with (2 ^ 52) in Hlo2.
  assert (Hm1 : Z.pos m1 < 2 ^ 53).
  { apply Z.lt_le_trans with (1 := Hhi1). apply Z.pow_le_mono_r; blia. }
  assert (Hp : 2 ^ (e1 + 1074) * 2 <= 2 ^ (e2 + 1074)).
  { replace (2 ^ (e1 + 1074) * 2) with (2 ^ (e1 + 1074 + 1))
      by (rewrite Z.pow_add_r by blia; reflexivity).
    apply Z.pow_le_mono_r; blia. }
  assert (0 < 2 ^ (e1 + 1074)) by (apply pow2_pos; blia).
  change (2 ^ 53) with (2 ^ 52 * 2) in Hm1. bnia.
Qed.

Lemma compare_canonical m1 e1 m2 e2 :
  fexp64 (Z.pos (digits2_pos m1) + e1) = e1 ->
  fexp64 (Z.pos (digits2_pos m2) + e2) = e2 ->
  match Z.compare e1 e2 with
  | Lt => Lt
  | Gt => Gt
  | Eq => Pos.compare_cont Eq m1 m2
  end = (Z.pos m1 * 2 ^ (e1 + 1074) ?= Z.pos m2 * 2 ^ (e2 + 1074)).
Proof.
  intros H1 H2. destruct (Z.compare_spec e1 e2) as [Heq|Hlt|Hgt].
  - subst e2. assert (0 < 2 ^ (e1 + 1074)) by (apply pow2_pos; unfold fexp64 in H1; blia).
    change (Pos.compare_cont Eq m1 m2) with (Z.pos m1 ?= Z.pos m2).
    destruct (Z.compare_spec (Z.pos m1) (Z.pos m2)) as [Hm|Hm|Hm]; symmetry.
    + apply Z.compare_eq_iff. rewrite Hm. reflexivity.
    + apply Z.compare_lt_iff. bnia.
    + apply Z.compare_gt_iff. bnia.
  - symmetry. apply Z.compare_lt_iff. now apply canonical_exponent_lt.
  - symmetry. apply Z.compare_gt_iff. now apply canonical_exponent_lt.
Qed.

Lemma rank_finite_bounds s m e :
  valid_binary (S754_finite s m e) = true ->
  0 < Z.pos m * 2 ^ (e + 1074) < 2 ^ 2100.
Proof.
  intros H. apply valid_finite_bounds in H as (_ & He & Hm).
  split; [|apply rank_finite_lt_inf; blia].
  assert (0 < 2 ^ (e + 1074)) by (apply pow2_pos; blia). bnia.
Qed.

Lemma opp_compare a b : (- a ?= - b) = CompOpp (a ?= b).
Proof. rewrite Z.compare_opp. apply Z.compare_antisym. Qed.

Theorem SFcompare_rank x y :
  valid_binary x = true -> valid_binary y = true ->
  SFis_nan x = false -> SFis_nan y = false ->
  SFcompare x y = Some (SFrank x ?= SFrank y).
Proof.
  intros Hx Hy Nx Ny.
  assert (Hinf : 0 < 2 ^ 2100) by (apply pow2_pos; blia).
  destruct x as [sx|sx| |sx mx ex], y as [sy|sy| |sy my ey]; try discriminate;
    try (pose proof (rank_finite_bounds _ _ _ Hx) as Bx);
    try (pose proof (rank_finite_bounds _ _ _ Hy) as By);
    cbn [SFcompare SFrank]; cbv zeta; f_equal; symmetry.
  all: try (repeat match goal with
                  | |- context [if ?b then _ else _] => destruct b
                  end;
            first [ reflexivity
                  | apply Z.compare_eq_iff; blia
                  | apply Z.compare_lt_iff; blia
                  | apply Z.compare_gt_iff; blia ]).
  apply valid_finite_bounds in Hx as (Cx & _ & _).
  apply valid_finite_bounds in Hy as (Cy & _ & _).
  destruct sx, sy.
  - rewrite opp_compare, <- (compare_canonical _ _ _ _ Cx Cy).
    destruct (ex ?= ey); reflexivity.
  - apply Z.compare_lt_iff; blia.
  - apply Z.compare_gt_iff; blia.
  - symmetry. apply compare_canonical; assumption.
Qed.

(** ** Alignment *)

Lemma Zdigits2_unique m d :
  0 < m -> 2 ^ (d - 1) <= m < 2 ^ d -> Zdigits2 m = d.
Proof.
  intros Hm [Hlo Hhi].
  pose proof (Zdigits2_bounds m Hm) as [Hlo' Hhi'].
  pose proof (Zdigits2_nonneg m) as Hd.
  assert (Hd1 : 1 <= Zdigits2 m).
  { destruct (Z_le_gt_dec 1 (Zdigits2 m)); [assumption|].
    assert (Zdigits2 m = 0) by blia. rewrite H in Hhi'. cbn in Hhi'. blia. }
  assert (0 <= d).
  { destruct (Z_le_gt_dec 0 d); [assumption|].
    rewrite Z.pow_neg_r in Hhi by blia. blia. }
  assert (d - 1 < Zdigits2 m) by (apply pow2_lt_mono_inv; blia).
  assert (Zdigits2 m - 1 < d) by (apply pow2_lt_mono_inv; blia).
  blia.
Qed.

Lemma Zdigits2_mul_pow2 m k :
  0 < m -> 0 <= k -> Zdigits2 (m * 2 ^ k) = Zdigits2 m + k.
Proof.
  intros Hm Hk. pose proof (Zdigits2_bounds m Hm) as [Hlo Hhi].
  pose proof (Zdigits2_nonneg m) as Hd.
  assert (Hd1 : 1 <= Zdigits2 m).
  { destruct (Z_le_gt_dec 1 (Zdigits2 m)); [assumption|].
    assert (Zdigits2 m = 0) by blia. rewrite H in Hhi. cbn in Hhi. blia. }
  assert (Hp : 0 < 2 ^ k) by (apply pow2_pos; blia).
  apply Zdigits2_unique; [bnia|].
  replace (Zdigits2 m + k - 1) with ((Zdigits2 m - 1) + k) by blia.
  rewrite !Z.pow_add_r by blia. bnia.
Qed.

Lemma pos_iter_xO m d : Z.pos (Pos.iter xO m d) = Z.pos m * 2 ^ Z.pos d.
Proof.
  induction d as [|d IH] using Pos.peano_ind.
  - cbn. blia.
  - rewrite Pos.iter_succ, Pos2Z.inj_succ, Z.pow_succ_r by blia.
    rewrite Pos2Z.inj_xO, IH. blia.
Qed.

Lemma shl_align_spec mx ex ex' :
  let '(mz, ez) := shl_align mx ex ex' in
  ez = Z.min ex ex' /\ Z.pos mz = Z.pos mx * 2 ^ (ex - ez).
Proof.
  unfold shl_align. destruct (ex' - ex) as [|d|d] eqn:Hd.
  - split; [blia|]. rewrite Z.sub_diag. cbn. blia.
  - split; [blia|]. rewrite Z.sub_diag. cbn. blia.
  - split; [blia|]. rewrite pos_iter_xO. f_equal. f_equal. blia.
Qed.

(** The shape of a rounded result of sign [false]. *)
Lemma round_result_shape mr E :
  0 <= mr <= 2 ^ 53 ->
  SFis_nan (round_result false mr E) = false /\
  0 <= SFrank (round_result false mr E) <= 2 ^ 2100.
Proof.
  intros Hmr.
  assert (Hinf : 0 < 2 ^ 2100) by (apply pow2_pos; blia).
  unfold round_result.
  destruct (Z.eqb_spec mr 0); [cbn [SFis_nan SFrank]; blia|].
  destruct (Z.ltb_spec mr (2 ^ 53)).
  - destruct (Z.leb_spec E 971); cbn [SFis_nan SFrank]; [|blia].
    split; [reflexivity|].
    destruct (Z_le_gt_dec (-1074) E).
    + rewrite Z2Pos.id by blia.
      pose proof (rank_finite_lt_inf mr E ltac:(blia) ltac:(blia)).
      assert (0 < 2 ^ (E + 1074)) by (apply pow2_pos; blia). bnia.
    + rewrite Z.pow_neg_r by blia. blia.
  - destruct (Z.leb_spec (E + 1) 971); cbn [SFis_nan SFrank]; [|blia].
    split; [reflexivity|].
    destruct (Z_le_gt_dec (-1074) (E + 1)).
    + pose proof (rank_finite_lt_inf (2 ^ 52) (E + 1) ltac:(cbn; blia) ltac:(blia)).
      rewrite Z2Pos.id by (cbn; blia).
      assert (0 < 2 ^ (E + 1 + 1074)) by (apply pow2_pos; blia). bnia.
    + rewrite (Z.pow_neg_r 2 (E + 1 + 1074)) by blia. blia.
Qed.

Lemma round_result_sign mr E :
  SFis_nan (round_result true mr E) = SFis_nan (round_result false mr E) /\
  SFrank (round_result true mr E) = - SFrank (round_result false mr E).
Proof.
  unfold round_result.
  destruct (mr =? 0); [split; reflexivity|].
  destruct (mr <? 2 ^ 53).
  - destruct (E <=? 971); split; reflexivity.
  - destruct (E + 1 <=? 971); split; reflexivity.
Qed.

(** Rounding a positive mantissa: the result is a rounded mantissa at the
    exponent [E], and lies on the right side of every representable number
    that bounds the exact value. *)
Lemma round_aux_bounds m e l :
  0 <= m ->
  let E := fexp64 (Zdigits2 m + e) in
  e <= E ->
  exists mr,
    0 <= mr <= 2 ^ 53 /\
    (forall s, binary_round_aux prec emax s m e l = round_result s mr E) /\
    forall mX eX b,
      0 < mX < 2 ^ 53 -> -1074 <= eX <= 971 -> b <= e -> b <= eX ->
      (mX * 2 ^ (eX - b) < (m + 1) * 2 ^ (e - b) ->
       mX * 2 ^ (eX + 1074) <= SFrank (round_result false mr E)) /\
      (l = loc_Exact -> 0 < m -> m * 2 ^ (e - b) <= mX * 2 ^ (eX - b) ->
       SFrank (round_result false mr E) <= mX * 2 ^ (eX + 1074)).
Proof.
  intros Hm E HE.
  destruct (binary_round_aux_form false m e l ltac:(blia) HE) as (mr & Hb & Hex & H53 & Hr).
  fold E in Hb, Hex, Hr.
  assert (HpEe : 0 < 2 ^ (E - e)) by (apply pow2_pos; blia).
  assert (H0 : 0 <= m / 2 ^ (E - e)) by (apply Z.div_pos; blia).
  exists mr. split; [blia|]. split.
  { intros s.
    destruct (binary_round_aux_form s m e l ltac:(blia) HE) as (mr' & _ & _ & _ & Hr').
    (* the mantissa does not depend on the sign *)
    revert Hr Hr'. unfold binary_round_aux.
    destruct (shr_fexp prec emax m e l) as [mrs e'].
    destruct (shr_fexp prec emax _ e' loc_Exact) as [mrs'' e''].
    unfold round_result.
    destruct (shr_m mrs'') as [|p|p], (mr =? 0), (mr <? 2 ^ 53),
      (e'' <=? emax - prec), (E <=? 971), (E + 1 <=? 971);
      intros Hr Hr'; try discriminate Hr; try reflexivity;
      injection Hr as -> ->; reflexivity. }
  intros mX eX b HmX HeX Hbe HbX. subst E. split.
  - intros Hle. apply (round_lower m e mr mX eX b); try assumption; blia.
  - intros -> Hm0 Hle. apply (round_upper m e mr mX eX b); try assumption.
    intros Hmod. apply Hex; [reflexivity | exact Hmod].
Qed.

(** ** Roundings *)

Lemma rounds_to_exact k r :
  SFis_nan r = false -> 0 <= k -> rounds_to k (SFrank r * 2 ^ k) r.
Proof.
  intros Hn Hk. split; [exact Hn|]. intros X _ _.
  assert (0 < 2 ^ k) by (apply pow2_pos; blia). split; intros H'; bnia.
Qed.

Lemma rounds_of_round_result s mr E k W :
  0 <= mr <= 2 ^ 53 -> 0 <= k -> 0 < W ->
  (forall mX eX, 0 < mX < 2 ^ 53 -> -1074 <= eX <= 971 ->
     (mX * 2 ^ (eX + 1074) * 2 ^ k <= W ->
      mX * 2 ^ (eX + 1074) <= SFrank (round_result false mr E)) /\
     (W <= mX * 2 ^ (eX + 1074) * 2 ^ k ->
      SFrank (round_result false mr E) <= mX * 2 ^ (eX + 1074))) ->
  rounds_to k (cond_Zopp s W) (round_result s mr E).
Proof.
  intros Hmr Hk HW Hb.
  destruct (round_result_shape mr E Hmr) as [Hnan Hrk].
  destruct (round_result_sign mr E) as [Hnan' Hrk'].
  assert (Hpk : 0 < 2 ^ k) by (apply pow2_pos; blia).
  split.
  { destruct s; [rewrite Hnan'|]; exact Hnan. }
  intros X HX HfX.
  destruct X as [sX|sX| |sX mX eX]; try discriminate.
  - cbn [SFrank]. destruct s; cbn [cond_Zopp]; [rewrite Hrk'|]; split; intros; blia.
  - pose proof (valid_finite_bounds _ _ _ HX) as (_ & HeX & HmX).
    specialize (Hb (Z.pos mX) eX ltac:(blia) HeX) as [Hlo Hup].
    cbn [SFrank]. cbv zeta.
    set (x' := Z.pos mX * 2 ^ (eX + 1074)) in *.
    assert (0 < x').
    { unfold x'. assert (0 < 2 ^ (eX + 1074)) by (apply pow2_pos; blia). bnia. }
    destruct s, sX; cbn [cond_Zopp]; try rewrite Hrk'; split; intros Hle; try bnia.
Qed.

Lemma binary_round_aux_rounds s m e k :
  0 < m -> e <= fexp64 (Zdigits2 m + e) -> 0 <= k -> -1074 - k <= e ->
  rounds_to k (cond_Zopp s (m * 2 ^ (e + 1074 + k)))
    (binary_round_aux prec emax s m e loc_Exact).
Proof.
  intros Hm HE Hk He.
  destruct (round_aux_bounds m e loc_Exact ltac:(blia) HE) as (mr & Hmr & Hr & Hb).
  rewrite Hr.
  assert (Hp : 0 < 2 ^ (e + 1074 + k)) by (apply pow2_pos; blia).
  apply rounds_of_round_result; try assumption; [bnia|].
  intros mX eX HmX HeX.
  specialize (Hb mX eX (-1074 - k) HmX HeX ltac:(blia) ltac:(blia)) as [Hlo Hup].
  replace (e - (-1074 - k)) with (e + 1074 + k) in * by blia.
  replace (eX - (-1074 - k)) with ((eX + 1074) + k) in * by blia.
  rewrite (Z.pow_add_r 2 (eX + 1074) k) in * by blia.
  split; intros Hle.
  - apply Hlo. bnia.
  - apply Hup; [reflexivity | blia | blia].
Qed.

Lemma binary_round_rounds s mx ex :
  -1074 <= ex ->
  rounds_to 0 (cond_Zopp s (Z.pos mx * 2 ^ (ex + 1074)))
    (binary_round prec emax s mx ex).
Proof.
  intros He. unfold binary_round. rewrite fexp_fexp64.
  pose proof (shl_align_spec mx ex (fexp64 (Z.pos (digits2_pos mx) + ex))) as Ha.
  destruct (shl_align mx ex _) as [mz ez]. destruct Ha as [Hez Hmz].
  assert (Hf : -1074 <= fexp64 (Z.pos (digits2_pos mx) + ex)) by (unfold fexp64; blia).
  assert (Hdz : Zdigits2 (Z.pos mz) + ez = Z.pos (digits2_pos mx) + ex).
  { rewrite Hmz, Zdigits2_mul_pow2 by blia. cbn [Zdigits2]. blia. }
  replace (Z.pos mx * 2 ^ (ex + 1074)) with (Z.pos mz * 2 ^ (ez + 1074 + 0)).
  - apply binary_round_aux_rounds; try blia. rewrite Hdz. blia.
  - rewrite Hmz, Z.add_0_r, <- Z.mul_assoc, <- Z.pow_add_r by blia. do 2 f_equal. blia.
Qed.

Lemma binary_normalize_rounds M e :
  -1074 <= e ->
  rounds_to 0 (M * 2 ^ (e + 1074)) (binary_normalize prec emax M e false).
Proof.
  intros He. destruct M as [|p|p]; cbn [binary_normalize].
  - apply (rounds_to_exact 0 (S754_zero false)); [reflexivity | blia].
  - apply (binary_round_rounds false p e He).
  - replace (Z.neg p * 2 ^ (e + 1074)) with (cond_Zopp true (Z.pos p * 2 ^ (e + 1074)))
      by (cbn [cond_Zopp]; blia).
    apply (binary_round_rounds true p e He).
Qed.

Lemma rounds_to_value k V r :
  SFis_nan r = false -> 0 <= k -> V = SFrank r * 2 ^ k -> rounds_to k V r.
Proof. intros Hn Hk ->. now apply rounds_to_exact. Qed.

Lemma rounds_to_representable k V r X :
  rounds_to k V r -> valid_binary X = true -> SFfinite X = true ->
  V = SFrank X * 2 ^ k -> SFrank r = SFrank X.
Proof.
  intros [_ H] HX HfX ->. destruct (H X HX HfX) as [H1 H2].
  specialize (H1 ltac:(blia)). specialize (H2 ltac:(blia)). blia.
Qed.

Lemma rank_finite_eq s m e :
  SFrank (S754_finite s m e) = cond_Zopp s (Z.pos m * 2 ^ (e + 1074)).
Proof. destruct s; reflexivity. Qed.

Lemma cond_Zopp_mul s a b : cond_Zopp s a * b = cond_Zopp s (a * b).
Proof. destruct s; cbn [cond_Zopp]; blia. Qed.

(** ** Subtraction *)
Theorem SFsub_rounds x y :
  valid_binary x = true -> valid_binary y = true ->
  SFfinite x = true -> SFfinite y = true ->
  rounds_to 0 (SFrank x - SFrank y) (SFsub prec emax x y).
Proof.
  intros Hx Hy Fx Fy.
  destruct x as [sx|sx| |sx mx ex], y as [sy|sy| |sy my ey]; try discriminate.
  - apply rounds_to_value; [destruct sx, sy; reflexivity | blia |].
    destruct sx, sy; reflexivity.
  - apply rounds_to_value; [reflexivity | blia |].
    cbn [SFsub]. rewrite !rank_finite_eq. destruct sy; cbn [negb cond_Zopp SFrank]; blia.
  - apply rounds_to_value; [reflexivity | blia |]. cbn [SFsub SFrank]. blia.
  - pose proof (valid_finite_bounds _ _ _ Hx) as (_ & Hex & _).
    pose proof (valid_finite_bounds _ _ _ Hy) as (_ & Hey & _).
    cbn [SFsub]. cbv zeta.
    pose proof (shl_align_spec mx ex (Z.min ex ey)) as Hax.
    pose proof (shl_align_spec my ey (Z.min ex ey)) as Hay.
    destruct (shl_align mx ex (Z.min ex ey)) as [mzx ezx].
    destruct (shl_align my ey (Z.min ex ey)) as [mzy ezy].
    destruct Hax as [Hezx Hmzx], Hay as [Hezy Hmzy]. cbn [fst].
    set (ez := Z.min ex ey) in *.
    replace (SFrank (S754_finite sx mx ex) - SFrank (S754_finite sy my ey))
      with ((cond_Zopp sx (Z.pos mzx) - cond_Zopp sy (Z.pos mzy)) * 2 ^ (ez + 1074)).
    + apply binary_normalize_rounds. blia.
    + rewrite !rank_finite_eq, Z.mul_sub_distr_r, !cond_Zopp_mul, Hmzx, Hmzy.
      replace ezx with ez by blia. replace ezy with ez by blia.
      rewrite <- !Z.mul_assoc, <- !Z.pow_add_r by blia.
      replace (ex - ez + (ez + 1074)) with (ex + 1074) by blia.
      replace (ey - ez + (ez + 1074)) with (ey + 1074) by blia. reflexivity.
Qed.

(** ** Multiplication *)
Lemma Zdigits2_mul_lower a b :
  0 < a -> 0 < b -> Zdigits2 a + Zdigits2 b - 1 <= Zdigits2 (a * b).
Proof.
  intros Ha Hb.
  pose proof (Zdigits2_bounds a Ha) as [Hla _].
  pose proof (Zdigits2_bounds b Hb) as [Hlb _].
  pose proof (Zdigits2_bounds (a * b) ltac:(bnia)) as [_ Hhab].
  pose proof (Zdigits2_nonneg (a * b)).
  assert (Hda : 1 <= Zdigits2 a) by (destruct a; cbn; blia).
  assert (Hdb : 1 <= Zdigits2 b) by (destruct b; cbn; blia).
  assert (Zdigits2 a - 1 + (Zdigits2 b - 1) < Zdigits2 (a * b)); [|blia].
  apply pow2_lt_mono_inv; [blia|]. rewrite Z.pow_add_r by blia.
  assert (0 < 2 ^ (Zdigits2 a - 1)) by (apply pow2_pos; blia).
  assert (0 < 2 ^ (Zdigits2 b - 1)) by (apply pow2_pos; blia). bnia.
Qed.

Theorem SFmul_rounds x y :
  valid_binary x = true -> valid_binary y = true ->
  SFfinite x = true -> SFfinite y = true ->
  rounds_to 1074 (SFrank x * SFrank y) (SFmul prec emax x y).
Proof.
  intros Hx Hy Fx Fy.
  destruct x as [sx|sx| |sx mx ex], y as [sy|sy| |sy my ey]; try discriminate;
    try (apply rounds_to_value; [reflexivity | blia | cbn [SFmul SFrank]; blia]).
  pose proof (valid_finite_bounds _ _ _ Hx) as (Hcx & Hex & _).
  pose proof (valid_finite_bounds _ _ _ Hy) as (Hcy & Hey & _).
  cbn [SFmul].
  replace (SFrank (S754_finite sx mx ex) * SFrank (S754_finite sy my ey))
    with (cond_Zopp (xorb sx sy) (Z.pos (mx * my) * 2 ^ (ex + ey + 1074 + 1074))).
  - apply binary_round_aux_rounds; try blia.
    pose proof (Zdigits2_mul_lower (Z.pos mx) (Z.pos my) ltac:(blia) ltac:(blia)) as Hd.
    rewrite Pos2Z.inj_mul. cbn [Zdigits2] in Hd.
    assert (1 <= Z.pos (digits2_pos mx)) by blia.
    assert (1 <= Z.pos (digits2_pos my)) by blia.
    unfold fexp64 in *. blia.
  - rewrite !rank_finite_eq, Pos2Z.inj_mul.
    replace (ex + ey + 1074 + 1074) with ((ex + 1074) + (ey + 1074)) by blia.
    rewrite Z.pow_add_r by blia.
    destruct sx, sy; cbn [xorb cond_Zopp]; blia.
Qed.

Lemma fexp64_mono a b : a <= b -> fexp64 a <= fexp64 b.
Proof. unfold fexp64. blia. Qed.

Lemma Zdigits2_ge_pow2 q K : 0 <= K -> 2 ^ K <= q -> K + 1 <= Zdigits2 q.
Proof.
  intros HK Hq. destruct (Z_le_gt_dec (K + 1) (Zdigits2 q)) as [|Hgt]; [assumption|].
  exfalso. assert (0 < 2 ^ K) by (apply pow2_pos; blia).
  assert (Zdigits2 q <= K) by blia.
  apply (Zdigits2_le_iff q K) in H0; blia.
Qed.

Lemma shift_mantissa m s :
  0 <= s ->
  match s with Z.pos _ => Z.shiftl m s | 0 => m | Z.neg _ => 0 end = m * 2 ^ s.
Proof.
  intros Hs. destruct s as [|p|p]; try blia.
  apply Z.shiftl_mul_pow2. blia.
Qed.

(** The quotient mantissa of [SFdiv]. *)
Lemma SFdiv_core_binary_spec m1 e1 m2 e2 :
  0 < m1 -> 0 < m2 ->
  let '(q, e', l) := SFdiv_core_binary prec emax m1 e1 m2 e2 in
  e' <= e1 - e2 /\
  Z.min (-1074) (e1 - e2) <= e' /\
  e' <= fexp64 (Zdigits2 q + e') /\
  0 <= q /\
  q * m2 <= m1 * 2 ^ (e1 - e2 - e') < (q + 1) * m2.
Proof.
  intros Hm1 Hm2. unfold SFdiv_core_binary. rewrite fexp_fexp64.
  set (delta := Zdigits2 m1 + e1 - (Zdigits2 m2 + e2)).
  set (e' := Z.min (fexp64 delta) (e1 - e2)).
  set (s := e1 - e2 - e').
  assert (Hs : 0 <= s) by (unfold s, e'; blia).
  set (m' := match s with Z.pos _ => Z.shiftl m1 s | 0 => m1 | Z.neg _ => 0 end).
  assert (Hm' : m' = m1 * 2 ^ s) by (apply shift_mantissa; exact Hs).
  pose proof (Z_div_mod m' m2 ltac:(blia)) as Hdm.
  destruct (Z.div_eucl m' m2) as [q r]. destruct Hdm as [Hdm Hr].
  assert (Hps : 0 < 2 ^ s) by (apply pow2_pos; blia).
  assert (Hq : 0 <= q) by bnia.
  split; [unfold e'; blia|]. split; [unfold e', fexp64; blia|].
  split; [|split; [exact Hq|fold s; rewrite <- Hm'; bnia]].
  (* the quotient has enough digits *)
  pose proof (Zdigits2_bounds m1 Hm1) as [Hl1 _].
  pose proof (Zdigits2_bounds m2 Hm2) as [_ Hh2].
  pose proof (Zdigits2_nonneg q) as Hdq.
  assert (Hd1 : 1 <= Zdigits2 m1) by (destruct m1; cbn; blia).
  assert (Hd2 : 1 <= Zdigits2 m2) by (destruct m2; cbn; blia).
  assert (Hdig : Zdigits2 m1 + s - Zdigits2 m2 <= Zdigits2 q).
  { destruct (Z_le_gt_dec 0 (Zdigits2 m1 - 1 + s - Zdigits2 m2)) as [HK|HK]; [|blia].
    set (K := Zdigits2 m1 - 1 + s - Zdigits2 m2) in *.
    assert (K + 1 <= Zdigits2 q); [|blia].
    apply Zdigits2_ge_pow2; [blia|].
    assert (Hsplit : 2 ^ (Zdigits2 m1 - 1) * 2 ^ s = 2 ^ K * 2 ^ Zdigits2 m2).
    { rewrite <- !Z.pow_add_r by blia. f_equal. unfold K. blia. }
    assert (0 < 2 ^ K) by (apply pow2_pos; blia).
    assert (2 ^ K * 2 ^ Zdigits2 m2 < (q + 1) * 2 ^ Zdigits2 m2) by bnia.
    assert (2 ^ K < q + 1); [|blia].
    apply Z.mul_lt_mono_pos_r with (p := 2 ^ Zdigits2 m2); blia. }
  apply Z.le_trans with (fexp64 delta); [unfold e'; blia|].
  apply fexp64_mono. unfold delta, s in *. blia.
Qed.

(** ** Division of positive numbers: the quotient is not below a
    representable number under the exact quotient. *)
Theorem SFdiv_lower mx ex my ey :
  valid_binary (S754_finite false mx ex) = true ->
  valid_binary (S754_finite false my ey) = true ->
  let r := SFdiv prec emax (S754_finite false mx ex) (S754_finite false my ey) in
  SFis_nan r = false /\ 0 <= SFrank r /\
  forall X, valid_binary X = true -> SFfinite X = true ->
    SFrank X * SFrank (S754_finite false my ey)
      <= SFrank (S754_finite false mx ex) * 2 ^ 1074 ->
    SFrank X <= SFrank r.
Proof.
  intros Hx Hy.
  pose proof (valid_finite_bounds _ _ _ Hx) as (_ & Hex & _).
  pose proof (valid_finite_bounds _ _ _ Hy) as (_ & Hey & _).
  cbn [SFdiv xorb]. cbv zeta.
  pose proof (SFdiv_core_binary_spec (Z.pos mx) ex (Z.pos my) ey ltac:(blia) ltac:(blia)) as Hc.
  destruct (SFdiv_core_binary prec emax (Z.pos mx) ex (Z.pos my) ey) as [[q e'] l].
  destruct Hc as (He1 & He2 & HE & Hq & Hlo & Hhi).
  destruct (round_aux_bounds q e' l Hq HE) as (mr & Hmr & Hr & Hb).
  rewrite Hr.
  destruct (round_result_shape mr (fexp64 (Zdigits2 q + e')) Hmr) as [Hnan Hrk].
  split; [exact Hnan|]. split; [blia|].
  intros X HX HfX Hle.
  destruct X as [sX|sX| |sX mX eX]; try discriminate; [cbn [SFrank]; blia|].
  pose proof (valid_finite_bounds _ _ _ HX) as (_ & HeX & HmX).
  destruct sX.
  { cbn [SFrank]. cbv zeta.
    assert (0 < 2 ^ (eX + 1074)) by (apply pow2_pos; blia). bnia. }
  cbn [SFrank] in *. cbv zeta in *.
  apply (Hb (Z.pos mX) eX (-3200)); try blia.
  replace (eX - -3200) with (eX + 3200) by blia.
  replace (e' - -3200) with (e' + 3200) by blia.
  (* scale the hypothesis to the exponent -3200 *)
  assert (HA : Z.pos mX * 2 ^ (eX + 3200) * Z.pos my
               <= Z.pos mx * 2 ^ (ex - ey + 3200)).
  { assert (Hp : 0 < 2 ^ (1052 - ey)) by (apply pow2_pos; blia).
    assert (E1 : 2 ^ (eX + 3200) * 2 ^ (ey + 1074) * 2 ^ 1074
                 = 2 ^ (eX + 1074) * 2 ^ (ey + 1074) * 2 ^ (1052 - ey) * 2 ^ (ey + 1074) * 2 ^ 1074).
    { rewrite <- !Z.pow_add_r by blia. f_equal. blia. }
    assert (E2 : 2 ^ (ex - ey + 3200) * 2 ^ (ey + 1074) * 2 ^ 1074
                 = 2 ^ (ex + 1074) * 2 ^ 1074 * 2 ^ (1052 - ey) * 2 ^ (ey + 1074) * 2 ^ 1074).
    { rewrite <- !Z.pow_add_r by blia. f_equal. blia. }
    assert (P1 : 0 < 2 ^ (ey + 1074)) by (apply pow2_pos; blia).
    assert (P2 : 0 < 2 ^ 1074) by (apply pow2_pos; blia).
    apply Z.mul_le_mono_pos_r with (p := 2 ^ (ey + 1074) * 2 ^ 1074); [bnia|].
    set (A := 2 ^ (eX + 3200)) in *. set (B := 2 ^ (ey + 1074)) in *.
    set (C := 2 ^ 1074) in *. set (D := 2 ^ (ex - ey + 3200)) in *.
    set (F := 2 ^ (eX + 1074)) in *. set (G := 2 ^ (1052 - ey)) in *.
    set (H := 2 ^ (ex + 1074)) in *.
    clearbody A B C D F G H.
    replace (Z.pos mX * A * Z.pos my * (B * C)) with (Z.pos mX * Z.pos my * (A * B * C)) by ring.
    replace (Z.pos mx * D * (B * C)) with (Z.pos mx * (D * B * C)) by ring.
    rewrite E1, E2.
    replace (Z.pos mX * Z.pos my * (F * B * G * B * C))
      with ((Z.pos mX * F * (Z.pos my * B)) * (G * B * C)) by ring.
    replace (Z.pos mx * (H * C * G * B * C))
      with ((Z.pos mx * H * C) * (G * B * C)) by ring.
    apply Z.mul_le_mono_nonneg_r; [bnia | exact Hle]. }
  assert (HB : Z.pos mx * 2 ^ (ex - ey + 3200)
               < (q + 1) * 2 ^ (e' + 3200) * Z.pos my).
  { replace (ex - ey + 3200) with ((ex - ey - e') + (e' + 3200)) by blia.
    rewrite Z.pow_add_r by blia.
    assert (0 < 2 ^ (e' + 3200)) by (apply pow2_pos; blia). bnia. }
  apply Z.mul_lt_mono_pos_r with (p := Z.pos my); blia.
Qed.

(** ** Comparisons of binary64 numbers through their ranks *)

Lemma SFrank_bounds x : valid_binary x = true -> - 2 ^ 2100 <= SFrank x <= 2 ^ 2100.
Proof.
  intros Hx. assert (0 < 2 ^ 2100) by (apply pow2_pos; blia).
  destruct x as [s|s| |s m e]; cbn [SFrank]; try blia.
  - destruct s; blia.
  - pose proof (rank_finite_bounds _ _ _ Hx). cbv zeta. destruct s; blia.
Qed.

Lemma SFfinite_rank x :
  valid_binary x = true -> SFis_nan x = false ->
  (SFfinite x = true <-> - 2 ^ 2100 < SFrank x < 2 ^ 2100).
Proof.
  intros Hx Hn. assert (0 < 2 ^ 2100) by (apply pow2_pos; blia).
  destruct x as [s|s| |s m e]; try discriminate; cbn [SFrank SFfinite].
  - split; [blia|reflexivity].
  - split; [discriminate|]. destruct s; blia.
  - pose proof (rank_finite_bounds _ _ _ Hx). cbv zeta.
    split; [destruct s; blia | reflexivity].
Qed.

Lemma is_nan_spec x : is_nan x = SFis_nan (Prim2SF x).
Proof.
  unfold is_nan. rewrite FloatAxioms.eqb_spec. unfold SFeqb.
  destruct (SFis_nan (Prim2SF x)) eqn:Hn.
  - destruct (Prim2SF x); try discriminate. reflexivity.
  - rewrite (SFcompare_rank _ _ (Prim2SF_valid x) (Prim2SF_valid x) Hn Hn).
    rewrite Z.compare_refl. reflexivity.
Qed.

Lemma leb_rank x y :
  is_nan x = false -> is_nan y = false ->
  (x <=? y)%float = (Frank x <=? Frank y).
Proof.
  rewrite !is_nan_spec. intros Hx Hy. rewrite FloatAxioms.leb_spec. unfold SFleb, Frank.
  rewrite (SFcompare_rank _ _ (Prim2SF_valid x) (Prim2SF_valid y) Hx Hy).
  rewrite Z.leb_compare. destruct (_ ?= _); reflexivity.
Qed.

Lemma ltb_rank x y :
  is_nan x = false -> is_nan y = false ->
  (x <? y)%float = (Frank x <? Frank y).
Proof.
  rewrite !is_nan_spec. intros Hx Hy. rewrite FloatAxioms.ltb_spec. unfold SFltb, Frank.
  rewrite (SFcompare_rank _ _ (Prim2SF_valid x) (Prim2SF_valid y) Hx Hy).
  rewrite Z.ltb_compare. destruct (_ ?= _); reflexivity.
Qed.

Lemma eqb_rank x y :
  is_nan x = false -> is_nan y = false ->
  (x =? y)%float = (Frank x =? Frank y).
Proof.
  rewrite !is_nan_spec. intros Hx Hy. rewrite FloatAxioms.eqb_spec. unfold SFeqb, Frank.
  rewrite (SFcompare_rank _ _ (Prim2SF_valid x) (Prim2SF_valid y) Hx Hy).
  rewrite Z.eqb_compare. destruct (_ ?= _); reflexivity.
Qed.

Lemma SFcompare_nan_l x y : SFis_nan x = true -> SFcompare x y = None.
Proof. destruct x; try discriminate. reflexivity. Qed.

Lemma SFcompare_nan_r x y : SFis_nan y = true -> SFcompare x y = None.
Proof. destruct y; try discriminate. destruct x; reflexivity. Qed.

Lemma leb_true x y :
  (x <=? y)%float = true <->
  is_nan x = false /\ is_nan y = false /\ Frank x <= Frank y.
Proof.
  split.
  - intros H. destruct (is_nan x) eqn:Hx.
    { rewrite is_nan_spec in Hx. rewrite FloatAxioms.leb_spec in H. unfold SFleb in H.
      rewrite SFcompare_nan_l in H by exact Hx. discriminate. }
    destruct (is_nan y) eqn:Hy.
    { rewrite is_nan_spec in Hy. rewrite FloatAxioms.leb_spec in H. unfold SFleb in H.
      rewrite SFcompare_nan_r in H by exact Hy. discriminate. }
    rewrite (leb_rank x y Hx Hy) in H. apply Z.leb_le in H. auto.
  - intros (Hx & Hy & H). rewrite (leb_rank x y Hx Hy). now apply Z.leb_le.
Qed.

Lemma ltb_true x y :
  (x <? y)%float = true <->
  is_nan x = false /\ is_nan y = false /\ Frank x < Frank y.
Proof.
  split.
  - intros H. destruct (is_nan x) eqn:Hx.
    { rewrite is_nan_spec in Hx. rewrite FloatAxioms.ltb_spec in H. unfold SFltb in H.
      rewrite SFcompare_nan_l in H by exact Hx. discriminate. }
    destruct (is_nan y) eqn:Hy.
    { rewrite is_nan_spec in Hy. rewrite FloatAxioms.ltb_spec in H. unfold SFltb in H.
      rewrite SFcompare_nan_r in H by exact Hy. discriminate. }
    rewrite (ltb_rank x y Hx Hy) in H. apply Z.ltb_lt in H. auto.
  - intros (Hx & Hy & H). rewrite (ltb_rank x y Hx Hy). now apply Z.ltb_lt.
Qed.

Lemma is_finite_spec x : is_finite x = SFfinite (Prim2SF x).
Proof.
  unfold is_finite, is_infinity. rewrite is_nan_spec, FloatAxioms.eqb_spec, abs_spec.
  change (Prim2SF infinity) with (S754_infinity false).
  destruct (Prim2SF x) as [s|s| |s m e]; reflexivity.
Qed.

Lemma is_finite_rank x :
  is_finite x = true <-> is_nan x = false /\ - 2 ^ 2100 < Frank x < 2 ^ 2100.
Proof.
  rewrite is_finite_spec, is_nan_spec. unfold Frank. split.
  - intros H. assert (Hn : SFis_nan (Prim2SF x) = false)
      by (destruct (Prim2SF x); try discriminate; reflexivity).
    split; [exact Hn|]. now apply SFfinite_rank; [apply Prim2SF_valid | |].
  - intros [Hn H]. now apply SFfinite_rank; [apply Prim2SF_valid | |].
Qed.

Lemma Frank_bounds x : - 2 ^ 2100 <= Frank x <= 2 ^ 2100.
Proof. apply SFrank_bounds, Prim2SF_valid. Qed.

(** Two numbers of the same non-zero rank are the same number. *)
Lemma Frank_inj x y :
  is_nan x = false -> is_nan y = false ->
  Frank x = Frank y -> Frank x <> 0 -> x = y.
Proof.
  rewrite !is_nan_spec. unfold Frank. intros Hx Hy Heq Hne.
  apply Prim2SF_inj.
  pose proof (Prim2SF_valid x) as Vx. pose proof (Prim2SF_valid y) as Vy.
  pose proof (SFcompare_rank _ _ Vx Vy Hx Hy) as Hc.
  rewrite Heq, Z.compare_refl in Hc.
  assert (Hinf : 0 < 2 ^ 2100) by (apply pow2_pos; blia).
  destruct (Prim2SF x) as [sx|sx| |sx mx ex], (Prim2SF y) as [sy|sy| |sy my ey];
    try discriminate; cbn [SFrank] in *; try blia.
  - destruct sx, sy; try reflexivity; blia.
  - pose proof (rank_finite_bounds _ _ _ Vy). cbv zeta in Heq. destruct sx, sy; blia.
  - pose proof (rank_finite_bounds _ _ _ Vx). cbv zeta in Heq. destruct sx, sy; blia.
  - pose proof (rank_finite_bounds _ _ _ Vx). pose proof (rank_finite_bounds _ _ _ Vy).
    cbv zeta in Heq.
    cbn [SFcompare] in Hc.
    destruct sx, sy; try blia; injection Hc as Hc;
      (destruct (Z.compare_spec ex ey) as [He|He|He]; try discriminate; subst ey;
       f_equal;
       try (apply (f_equal CompOpp) in Hc; rewrite CompOpp_involutive in Hc; cbn in Hc);
       now apply Pos.compare_eq).
Qed.

(** ** Integers as binary64 numbers *)

Lemma representable_int n :
  0 < n < 2 ^ 53 ->
  exists X, valid_binary X = true /\ SFfinite X = true /\ SFrank X = n * 2 ^ 1074.
Proof.
  intros Hn. set (d := Zdigits2 n).
  pose proof (Zdigits2_bounds n ltac:(blia)) as [Hlo Hhi]. fold d in Hlo, Hhi.
  assert (Hd1 : 1 <= d) by (unfold d; destruct n; cbn; blia).
  assert (Hd53 : d <= 53) by (apply (Zdigits2_le_iff n 53); blia).
  set (M := n * 2 ^ (53 - d)).
  assert (Hp : 0 < 2 ^ (53 - d)) by (apply pow2_pos; blia).
  assert (HM : 0 < M) by (unfold M; bnia).
  assert (HdM : Zdigits2 M = 53).
  { unfold M. rewrite Zdigits2_mul_pow2 by blia. fold d. blia. }
  exists (S754_finite false (Z.to_pos M) (d - 53)).
  split; [|split; [reflexivity|]].
  - cbn [valid_binary]. unfold bounded, canonical_mantissa. rewrite fexp_fexp64.
    replace (Z.pos (digits2_pos (Z.to_pos M))) with (Zdigits2 M)
      by (destruct M; try blia; reflexivity).
    rewrite HdM. apply andb_true_intro. split.
    + apply Z.eqb_eq. unfold fexp64. blia.
    + apply Z.leb_le. change (emax - prec) with 971. blia.
  - cbn [SFrank]. cbv zeta. rewrite Z2Pos.id by blia. unfold M.
    rewrite <- Z.mul_assoc, <- Z.pow_add_r by blia. do 2 f_equal. blia.
Qed.

Lemma of_uint63_rank n :
  0 <= n < 2 ^ 53 ->
  is_nan (of_uint63 (Uint63.of_Z n)) = false /\
  Frank (of_uint63 (Uint63.of_Z n)) = n * 2 ^ 1074.
Proof.
  intros Hn. rewrite is_nan_spec. unfold Frank. rewrite FloatAxioms.of_uint63_spec, of_Z_spec.
  rewrite Z.mod_small by (change wB with (2 ^ 63); blia).
  pose proof (binary_normalize_rounds n 0 ltac:(blia)) as Hr.
  change (0 + 1074) with 1074 in Hr.
  split; [apply Hr|].
  destruct (Z.eq_dec n 0) as [->|Hne]; [reflexivity|].
  destruct (representable_int n ltac:(blia)) as (X & VX & FX & RX).
  rewrite <- RX. apply (rounds_to_representable 0 _ _ X Hr VX FX).
  rewrite RX. blia.
Qed.

Theorem int_to_double_rank n :
  - 2 ^ 53 < n < 2 ^ 53 ->
  is_nan (int_to_double n) = false /\ Frank (int_to_double n) = n * 2 ^ 1074.
Proof.
  intros Hn. unfold int_to_double. destruct (Z.ltb_spec n 0) as [Hneg|Hpos].
  - destruct (of_uint63_rank (- n) ltac:(blia)) as [Hnan Hrk].
    rewrite is_nan_spec in *. unfold Frank in *. rewrite FloatAxioms.opp_spec.
    destruct (Prim2SF (of_uint63 (of_Z (- n)))) as [s|s| |s m e]; try discriminate;
      cbn [SFopp SFis_nan SFrank] in *.
    + split; [reflexivity|blia].
    + split; [reflexivity|]. destruct s; cbn [negb]; blia.
    + split; [reflexivity|]. cbv zeta in *. destruct s; cbn [negb]; blia.
  - apply of_uint63_rank. blia.
Qed.

Lemma int_to_double_finite n :
  - 2 ^ 53 < n < 2 ^ 53 -> is_finite (int_to_double n) = true.
Proof.
  intros Hn. destruct (int_to_double_rank n Hn) as [Hnan Hrk].
  apply is_finite_rank. split; [exact Hnan|]. rewrite Hrk.
  assert (2 ^ 53 * 2 ^ 1074 < 2 ^ 2100).
  { rewrite <- Z.pow_add_r by blia. apply Z.pow_lt_mono_r; blia. }
  assert (0 < 2 ^ 1074) by (apply pow2_pos; blia). bnia.
Qed.

(** ** The operations on primitive floats *)

Lemma is_finite_valid x :
  is_finite x = true -> valid_binary (Prim2SF x) = true /\ SFfinite (Prim2SF x) = true.
Proof. rewrite is_finite_spec. intros H. split; [apply Prim2SF_valid | exact H]. Qed.

Theorem sub_rounds x y :
  is_finite x = true -> is_finite y = true ->
  rounds_to 0 (Frank x - Frank y) (Prim2SF (x - y)).
Proof.
  intros Hx Hy. rewrite FloatAxioms.sub_spec. unfold SF64sub.
  destruct (is_finite_valid x Hx), (is_finite_valid y Hy).
  now apply SFsub_rounds.
Qed.

Theorem mul_rounds x y :
  is_finite x = true -> is_finite y = true ->
  rounds_to 1074 (Frank x * Frank y) (Prim2SF (x * y)).
Proof.
  intros Hx Hy. rewrite FloatAxioms.mul_spec.
  destruct (is_finite_valid x Hx), (is_finite_valid y Hy).
  now apply SFmul_rounds.
Qed.

Lemma rounds_to_upper k V (r z : float) :
  rounds_to k V (Prim2SF r) -> is_finite z = true ->
  V <= Frank z * 2 ^ k -> is_nan r = false /\ Frank r <= Frank z.
Proof.
  intros [Hn Hb] Hz HV. rewrite is_nan_spec. split; [exact Hn|].
  destruct (is_finite_valid z Hz) as [Vz Fz]. now apply (Hb _ Vz Fz).
Qed.

Lemma rounds_to_lower k V (r z : float) :
  rounds_to k V (Prim2SF r) -> is_finite z = true ->
  Frank z * 2 ^ k <= V -> is_nan r = false /\ Frank z <= Frank r.
Proof.
  intros [Hn Hb] Hz HV. rewrite is_nan_spec. split; [exact Hn|].
  destruct (is_finite_valid z Hz) as [Vz Fz]. now apply (Hb _ Vz Fz).
Qed.

(** Subtracting a non-negative number does not increase a number. *)
Theorem sub_nonneg_le x a :
  is_nan x = false -> Frank x < 2 ^ 2100 ->
  is_nan a = false -> 0 <= Frank a ->
  is_nan (x - a) = false /\ Frank (x - a) <= Frank x.
Proof.
  intros Nx Hx Na Ha.
  assert (Hinf : 0 < 2 ^ 2100) by (apply pow2_pos; blia).
  destruct (is_finite x) eqn:Fx; [destruct (is_finite a) eqn:Fa|].
  - apply (rounds_to_upper 0 (Frank x - Frank a)); [now apply sub_rounds | exact Fx | blia].
  - (* a is plus infinity *)
    rewrite is_nan_spec in *. rewrite is_finite_spec in *. unfold Frank in *.
    rewrite FloatAxioms.sub_spec. unfold SF64sub.
    pose proof (SFrank_bounds _ (Prim2SF_valid x)).
    destruct (Prim2SF a) as [sa|sa| |sa ma ea]; try discriminate.
    destruct sa; [cbn [SFrank] in Ha; blia|].
    destruct (Prim2SF x) as [sx|sx| |sx mx ex]; try discriminate;
      cbn [SFsub negb SFis_nan];
      change (SFrank (S754_infinity true)) with (- 2 ^ 2100);
      (split; [reflexivity | blia]).
  - (* x is minus infinity *)
    rewrite is_nan_spec in *. rewrite is_finite_spec in *. unfold Frank in *.
    rewrite FloatAxioms.sub_spec. unfold SF64sub.
    destruct (Prim2SF x) as [sx|sx| |sx mx ex]; try discriminate.
    destruct sx; cbn [SFrank] in Hx; [|blia].
    pose proof (Prim2SF_valid a) as Va.
    destruct (Prim2SF a) as [sa|sa| |sa ma ea]; try discriminate;
      cbn [SFsub SFis_nan SFrank]; try (split; [reflexivity | blia]).
    destruct sa; cbn [SFrank] in Ha; [blia|]. split; [reflexivity | cbn [SFrank]; blia].
Qed.

(** The difference of two finite numbers [0 <= a <= x] is a finite number
    between [0] and [x]. *)
Theorem sub_nonneg_finite x a :
  is_finite x = true -> is_finite a = true -> Frank a <= Frank x ->
  0 <= Frank a ->
  is_finite (x - a) = true /\ 0 <= Frank (x - a) <= Frank x.
Proof.
  intros Fx Fa Hle Ha.
  pose proof (sub_rounds x a Fx Fa) as Hr.
  destruct (rounds_to_upper 0 _ _ x Hr Fx ltac:(blia)) as [Hn Hup].
  assert (F0 : is_finite 0 = true) by reflexivity.
  destruct (rounds_to_lower 0 _ _ 0%float Hr F0 ltac:(change (Frank 0) with 0; blia)) as [_ Hlo].
  change (Frank 0) with 0 in Hlo.
  apply is_finite_rank in Fx as [_ Hx].
  split; [|blia]. apply is_finite_rank. split; [exact Hn|blia].
Qed.

(** The product of two non-negative finite numbers is not negative. *)
Theorem mul_nonneg x y :
  is_finite x = true -> is_finite y = true ->
  0 <= Frank x -> 0 <= Frank y ->
  is_nan (x * y) = false /\ 0 <= Frank (x * y).
Proof.
  intros Fx Fy Hx Hy.
  pose proof (mul_rounds x y Fx Fy) as Hr.
  assert (F0 : is_finite 0 = true) by reflexivity.
  apply (rounds_to_lower 1074 _ _ 0%float Hr F0). change (Frank 0) with 0. bnia.
Qed.

(** Scaling a non-negative number by a factor in (0, 1] does not increase it. *)
Theorem mul_le_of_factor_le_one t ratio :
  (0 <=? t)%float = true ->
  (0 <? ratio)%float = true -> (ratio <=? 1)%float = true ->
  (t * ratio <=? t)%float = true.
Proof.
  intros Ht Hr0 Hr1.
  apply leb_true in Ht as (_ & Nt & Ht). apply ltb_true in Hr0 as (_ & Nr & Hr0).
  apply leb_true in Hr1 as (_ & _ & Hr1).
  change (Frank 0) with 0 in *. change (Frank 1) with (2 ^ 1074) in Hr1.
  assert (H1074 : 0 < 2 ^ 1074) by (apply pow2_pos; blia).
  assert (Hinf : 2 ^ 1074 < 2 ^ 2100) by (apply Z.pow_lt_mono_r; blia).
  assert (Fr : is_finite ratio = true) by (apply is_finite_rank; split; [exact Nr | blia]).
  apply leb_true.
  destruct (is_finite t) eqn:Ft.
  - destruct (rounds_to_upper 1074 _ _ t (mul_rounds t ratio Ft Fr) Ft) as [Hn Hle]; [bnia|].
    auto.
  - (* t is plus infinity *)
    rewrite !is_nan_spec in *. rewrite is_finite_spec in *. unfold Frank in *.
    rewrite FloatAxioms.mul_spec. unfold SF64mul.
    destruct (Prim2SF t) as [st|st| |st mt et]; try discriminate.
    destruct st; cbn [SFrank] in Ht; [blia|].
    destruct (Prim2SF ratio) as [sr|sr| |sr mr er]; try discriminate;
      cbn [SFrank] in Hr0; try blia.
    destruct sr; cbv zeta in Hr0; [blia|].
    cbn [SFmul xorb SFis_nan SFrank]. repeat split; blia.
Qed.

(** ** Division *)

Lemma positive_finite_form x :
  is_finite x = true -> 0 < Frank x ->
  exists m e, Prim2SF x = S754_finite false m e.
Proof.
  rewrite is_finite_spec. unfold Frank. intros Fx Hx.
  destruct (Prim2SF x) as [s|s| |s m e]; try discriminate; cbn [SFrank] in Hx; try blia.
  destruct s; [|eauto]. cbv zeta in Hx.
  assert (0 <= 2 ^ (e + 1074)) by (apply Z.pow_nonneg; blia). bnia.
Qed.

Theorem div_lower x y z :
  is_finite x = true -> is_finite y = true -> 0 < Frank x -> 0 < Frank y ->
  is_finite z = true -> Frank z * Frank y <= Frank x * 2 ^ 1074 ->
  is_nan (x / y) = false /\ 0 <= Frank (x / y) /\ Frank z <= Frank (x / y).
Proof.
  intros Fx Fy Hx Hy Fz Hle.
  destruct (positive_finite_form x Fx Hx) as (mx & ex & Ex).
  destruct (positive_finite_form y Fy Hy) as (my & ey & Ey).
  pose proof (Prim2SF_valid x) as Vx. pose proof (Prim2SF_valid y) as Vy.
  rewrite Ex in Vx. rewrite Ey in Vy.
  destruct (SFdiv_lower mx ex my ey Vx Vy) as (Hn & H0 & Hb).
  rewrite is_nan_spec. unfold Frank in *. rewrite FloatAxioms.div_spec. unfold SF64div.
  rewrite Ex, Ey in *.
  destruct (is_finite_valid z Fz) as [Vz Fz'].
  split; [exact Hn|]. split; [exact H0|]. apply Hb; assumption.
Qed.

(** ** Quotients of integers *)

Lemma Frank_one : Frank 1 = 2 ^ 1074.
Proof. reflexivity. Qed.

Lemma pow2_1074_lt : 0 < 2 ^ 1074 < 2 ^ 2100.
Proof. split; [apply pow2_pos; blia | apply Z.pow_lt_mono_r; blia]. Qed.

Lemma int_quotient_lower p L (z : float) k :
  1 <= p <= INT_MAX -> 1 <= L <= INT_MAX ->
  is_finite z = true -> Frank z = 2 ^ k -> 0 <= k <= 1074 ->
  2 ^ k * L <= p * 2 ^ 1074 ->
  let q := (int_to_double p / int_to_double L)%float in
  is_nan q = false /\ 2 ^ k <= Frank q.
Proof.
  intros Hp HL Fz Hz Hk Hle q. unfold INT_MAX in *.
  destruct (int_to_double_rank p ltac:(blia)) as [_ Rp].
  destruct (int_to_double_rank L ltac:(blia)) as [_ RL].
  pose proof (int_to_double_finite p ltac:(blia)) as Fp.
  pose proof (int_to_double_finite L ltac:(blia)) as FL.
  pose proof pow2_1074_lt as [H1074 _].
  destruct (div_lower (int_to_double p) (int_to_double L) z Fp FL) as (Hn & _ & Hlo);
    try assumption; try (rewrite ?Rp, ?RL; bnia).
  rewrite Hz in Hlo. auto.
Qed.

(** ** Conversion to int *)

Lemma SFtrunc_spec x n :
  valid_binary x = true -> SFtrunc x = Some n ->
  Z.abs n * 2 ^ 1074 <= Z.abs (SFrank x) < (Z.abs n + 1) * 2 ^ 1074 /\
  (0 <= SFrank x -> 0 <= n) /\ (SFrank x <= 0 -> n <= 0).
Proof.
  intros Vx Hn. pose proof pow2_1074_lt as [H1074 _].
  destruct x as [s|s| |s m e]; try discriminate; cbn [SFtrunc] in Hn.
  - injection Hn as <-. cbn [SFrank]. cbn [Z.abs]. blia.
  - cbv zeta in Hn. injection Hn as <-.
    pose proof (valid_finite_bounds _ _ _ Vx) as (_ & He & _).
    pose proof (rank_finite_bounds _ _ _ Vx) as Hr.
    cbn [SFrank]. cbv zeta.
    set (N := Z.shiftl (Z.pos m) e).
    assert (HN : N * 2 ^ 1074 <= Z.pos m * 2 ^ (e + 1074) < (N + 1) * 2 ^ 1074 /\ 0 <= N).
    { unfold N. destruct (Z_le_gt_dec 0 e) as [Hpos|Hneg].
      - rewrite Z.shiftl_mul_pow2 by blia. rewrite Z.pow_add_r by blia.
        assert (0 < 2 ^ e) by (apply pow2_pos; blia). bnia.
      - rewrite Z.shiftl_div_pow2 by blia.
        assert (Hp : 0 < 2 ^ (- e)) by (apply pow2_pos; blia).
        pose proof (Z.div_mod (Z.pos m) (2 ^ (- e)) ltac:(blia)) as Hdm.
        pose proof (Z.mod_pos_bound (Z.pos m) (2 ^ (- e)) Hp) as Hmb.
        assert (Hs : 2 ^ 1074 = 2 ^ (- e) * 2 ^ (e + 1074)).
        { rewrite <- Z.pow_add_r by blia. f_equal. blia. }
        assert (0 < 2 ^ (e + 1074)) by (apply pow2_pos; blia).
        assert (0 <= Z.pos m / 2 ^ (- e)) by (apply Z.div_pos; blia).
        rewrite Hs. bnia. }
    destruct HN as [HN HN0]. destruct s; blia.
Qed.

Lemma abs_rank x : is_nan (abs x) = is_nan x /\ Frank (abs x) = Z.abs (Frank x).
Proof.
  rewrite !is_nan_spec. unfold Frank. rewrite abs_spec.
  pose proof (Prim2SF_valid x) as Vx.
  assert (Hinf : 0 < 2 ^ 2100) by (apply pow2_pos; blia).
  destruct (Prim2SF x) as [s|s| |s m e]; cbn [SFabs SFis_nan SFrank]; split;
    try reflexivity.
  - destruct s; blia.
  - pose proof (rank_finite_bounds _ _ _ Vx). cbv zeta. destruct s; blia.
Qed.

(** [double_to_int] discards the fraction: the result is the integer part
    of the argument. *)
Theorem double_to_int_truncates q n :
  double_to_int q = Some n ->
  INT_MIN <= n <= INT_MAX /\
  (int_to_double (Z.abs n) <=? abs q)%float = true /\
  (abs q <? int_to_double (Z.abs n + 1))%float = true /\
  ((0 <=? q)%float = true -> 0 <= n) /\
  ((q <=? 0)%float = true -> n <= 0).
Proof.
  unfold double_to_int. intros H.
  destruct (SFtrunc (Prim2SF q)) as [k|] eqn:Hk; [|discriminate].
  destruct ((INT_MIN <=? k) && (k <=? INT_MAX)) eqn:Hrange; [|discriminate].
  injection H as <-. apply andb_prop in Hrange as [H1 H2].
  apply Z.leb_le in H1, H2. split; [blia|].
  destruct (SFtrunc_spec _ _ (Prim2SF_valid q) Hk) as (Hfl & Hpos & Hneg).
  fold (Frank q) in Hfl, Hpos, Hneg.
  assert (Nq : is_nan q = false).
  { rewrite is_nan_spec. destruct (Prim2SF q); try discriminate; reflexivity. }
  destruct (abs_rank q) as [Na Ra]. rewrite Nq in Na.
  unfold INT_MIN, INT_MAX in *.
  destruct (int_to_double_rank (Z.abs k) ltac:(blia)) as [N1 R1].
  destruct (int_to_double_rank (Z.abs k + 1) ltac:(blia)) as [N2 R2].
  split; [|split; [|split]].
  - apply leb_true. rewrite R1, Ra. repeat split; try assumption. blia.
  - apply ltb_true. rewrite R2, Ra. repeat split; try assumption. blia.
  - intros H0. apply leb_true in H0 as (_ & _ & H0). change (Frank 0) with 0 in H0. auto.
  - intros H0. apply leb_true in H0 as (_ & _ & H0). change (Frank 0) with 0 in H0. auto.
Qed.

(** The conversion is defined on the numbers whose integer part is an int. *)
Theorem double_to_int_defined q :
  (-2147483649 <? q)%float = true -> (q <? 2147483648)%float = true ->
  exists n, double_to_int q = Some n.
Proof.
  intros Hlo Hhi.
  apply ltb_true in Hlo as (_ & Nq & Hlo). apply ltb_true in Hhi as (_ & _ & Hhi).
  change (Frank (-2147483649)) with (- (2147483649 * 2 ^ 1074)) in Hlo.
  change (Frank 2147483648) with (2147483648 * 2 ^ 1074) in Hhi.
  pose proof pow2_1074_lt as [H1074 Hinf].
  assert (Fq : is_finite q = true).
  { apply is_finite_rank. split; [exact Nq|].
    assert (2147483649 * 2 ^ 1074 < 2 ^ 2100).
    { change (2 ^ 2100) with (2 ^ 1026 * 2 ^ 1074).
      apply Z.mul_lt_mono_pos_r; [blia|]. reflexivity. }
    blia. }
  rewrite is_finite_spec in Fq. unfold double_to_int.
  destruct (SFtrunc (Prim2SF q)) as [k|] eqn:Hk.
  - destruct (SFtrunc_spec _ _ (Prim2SF_valid q) Hk) as (Hfl & Hpos & Hneg).
    fold (Frank q) in Hfl, Hpos, Hneg.
    assert (INT_MIN <= k <= INT_MAX) as [H1 H2] by (unfold INT_MIN, INT_MAX; bnia).
    apply Z.leb_le in H1, H2. rewrite H1, H2. cbn. eauto.
  - destruct (Prim2SF q); discriminate.
Qed.

(** ** Multiplication by one *)

(** Multiplying by 1.0 changes nothing. *)
Theorem mul_one_r x : (x * 1)%float = x.
Proof.
  destruct (is_finite x) eqn:Fx.
  - destruct (Z.eq_dec (Frank x) 0) as [Hz|Hnz].
    + apply Prim2SF_inj. rewrite FloatAxioms.mul_spec. unfold SF64mul.
      change (Prim2SF 1) with (S754_finite false 4503599627370496 (-52)).
      unfold Frank in Hz. pose proof (Prim2SF_valid x) as Vx.
      rewrite is_finite_spec in Fx.
      destruct (Prim2SF x) as [s|s| |s m e]; try discriminate.
      * destruct s; reflexivity.
      * pose proof (rank_finite_bounds _ _ _ Vx). cbn [SFrank] in Hz. cbv zeta in Hz.
        destruct s; blia.
    + assert (F1 : is_finite 1 = true) by reflexivity.
      pose proof (mul_rounds x 1 Fx F1) as Hr.
      destruct (is_finite_valid x Fx) as [Vx Fx'].
      pose proof (rounds_to_representable 1074 _ _ _ Hr Vx Fx') as Heq.
      rewrite Frank_one in Heq. specialize (Heq eq_refl). fold (Frank (x * 1)) in Heq.
      fold (Frank x) in Heq.
      apply Frank_inj; try assumption.
      * rewrite is_nan_spec. apply Hr.
      * apply is_finite_rank in Fx. apply Fx.
      * blia.
  - apply Prim2SF_inj. rewrite FloatAxioms.mul_spec. unfold SF64mul.
    change (Prim2SF 1) with (S754_finite false 4503599627370496 (-52)).
    rewrite is_finite_spec in Fx.
    destruct (Prim2SF x) as [s|s| |s m e]; try discriminate; try reflexivity.
    destruct s; reflexivity.
Qed.

(** Rounding a value that lies under a representable number of the grid of
    [e], whatever its location above [m], does not go above that number. *)
Lemma round_upper_above m e mr mX eX b :
  0 <= m ->
  let E := fexp64 (Zdigits2 m + e) in
  e <= E ->
  m / 2 ^ (E - e) <= mr <= m / 2 ^ (E - e) + 1 ->
  0 < mX < 2 ^ 53 -> -1074 <= eX <= 971 ->
  b <= e -> b <= eX ->
  (m + 1) * 2 ^ (e - b) <= mX * 2 ^ (eX - b) ->
  SFrank (round_result false mr E) <= mX * 2 ^ (eX + 1074).
Proof.
  intros Hm E HE Hmr HmX HeX Hbe HbX Hle.
  assert (HEdef : E = fexp64 (Zdigits2 m + e)) by reflexivity.
  clearbody E. unfold fexp64 in HEdef.
  assert (HEmin : -1074 <= E) by blia.
  assert (Hpe : 0 < 2 ^ (e - b)) by (apply pow2_pos; blia).
  assert (HpX : 0 < 2 ^ (eX - b)) by (apply pow2_pos; blia).
  assert (HpEe : 0 < 2 ^ (E - e)) by (apply pow2_pos; blia).
  pose proof (Zdigits2_nonneg m) as Hd0.
  assert (HEX : E <= eX).
  { destruct (Z_le_gt_dec E eX) as [|Hgt]; [assumption|exfalso].
    destruct (Z.eq_dec m 0) as [->|Hne]; [cbn in HEdef; blia|].
    pose proof (Zdigits2_bounds m ltac:(blia)) as [Hdlo Hdhi].
    assert (HEd : E = Zdigits2 m + e - 53) by blia.
    assert (Hs : 2 ^ (Zdigits2 m - 1) * 2 ^ (e - b) = 2 ^ 53 * 2 ^ (E - 1 - b))
      by (rewrite <- !Z.pow_add_r by blia; f_equal; blia).
    assert (2 ^ (eX - b) <= 2 ^ (E - 1 - b)) by (apply Z.pow_le_mono_r; blia).
    assert (0 < 2 ^ (E - 1 - b)) by (apply pow2_pos; blia).
    bnia. }
  set (MX := mX * 2 ^ (eX - E)).
  assert (HpXE : 0 < 2 ^ (eX - E)) by (apply pow2_pos; blia).
  assert (HmMX : m + 1 <= MX * 2 ^ (E - e)).
  { unfold MX.
    assert (Hs1 : 2 ^ (eX - b) = 2 ^ (eX - E) * 2 ^ (E - b)) by (apply pow2_split; blia).
    assert (Hs2 : 2 ^ (E - b) = 2 ^ (E - e) * 2 ^ (e - b)) by (apply pow2_split; blia).
    rewrite Hs1, Hs2 in Hle.
    apply Z.mul_le_mono_pos_r with (p := 2 ^ (e - b)); [blia|]. blia. }
  assert (H0 : 0 <= m / 2 ^ (E - e)) by (apply Z.div_pos; blia).
  assert (Hmr' : mr <= MX).
  { pose proof (Z.div_mod m (2 ^ (E - e)) ltac:(blia)) as Hdm.
    pose proof (Z.mod_pos_bound m (2 ^ (E - e)) HpEe) as Hmb.
    assert (m / 2 ^ (E - e) < MX) by bnia. blia. }
  assert (HMX : MX * 2 ^ (E + 1074) = mX * 2 ^ (eX + 1074)).
  { unfold MX. replace (eX + 1074) with ((eX - E) + (E + 1074)) by blia.
    rewrite (Z.pow_add_r 2 (eX - E) (E + 1074)) by blia. blia. }
  assert (HpE : 0 < 2 ^ (E + 1074)) by (apply pow2_pos; blia).
  assert (Hcarry : mr = 2 ^ 53 -> E + 1 <= eX).
  { intros Heq. destruct (Z.eq_dec E eX) as [Heq'|]; [|blia]. exfalso.
    unfold MX in Hmr'. rewrite Heq', Z.sub_diag in Hmr'. cbn in Hmr'. blia. }
  assert (Hmr53 : mr <= 2 ^ 53).
  { assert (m / 2 ^ (E - e) < 2 ^ 53); [|blia].
    apply Z.div_lt_upper_bound; [blia|]. rewrite <- Z.pow_add_r by blia.
    destruct (Z.eq_dec m 0) as [->|Hne]; [apply pow2_pos; blia|].
    pose proof (Zdigits2_bounds m ltac:(blia)) as [Hdlo Hdhi].
    apply Z.lt_le_trans with (1 := Hdhi). apply Z.pow_le_mono_r; blia. }
  rewrite rank_round_result_finite; try blia.
  rewrite <- HMX. bnia.
Qed.

(** The quotient mantissa of [SFdiv], with its exponent and its location. *)
Lemma SFdiv_core_binary_loc m1 e1 m2 e2 :
  0 < m1 -> 0 < m2 ->
  let '(q, e', l) := SFdiv_core_binary prec emax m1 e1 m2 e2 in
  e' <= fexp64 (Zdigits2 m1 + e1 - (Zdigits2 m2 + e2)) /\
  (m1 * 2 ^ (e1 - e2 - e') = q * m2 -> l = loc_Exact).
Proof.
  intros Hm1 Hm2. unfold SFdiv_core_binary. rewrite fexp_fexp64.
  set (delta := Zdigits2 m1 + e1 - (Zdigits2 m2 + e2)).
  set (e' := Z.min (fexp64 delta) (e1 - e2)).
  set (s := e1 - e2 - e').
  assert (Hs : 0 <= s) by (unfold s, e'; blia).
  set (m' := match s with Z.pos _ => Z.shiftl m1 s | 0 => m1 | Z.neg _ => 0 end).
  assert (Hm' : m' = m1 * 2 ^ s) by (apply shift_mantissa; exact Hs).
  pose proof (Z_div_mod m' m2 ltac:(blia)) as Hdm.
  destruct (Z.div_eucl m' m2) as [q r]. destruct Hdm as [Hdm Hr].
  split; [unfold e'; blia|].
  fold s. rewrite <- Hm'. intros Heq.
  assert (r = 0) by blia. subst r.
  unfold new_location, new_location_even, new_location_odd.
  destruct (Z.even m2); reflexivity.
Qed.

(** ** Division of positive numbers: the quotient is not above a
    representable number over the exact quotient. *)
Theorem SFdiv_upper mx ex my ey X :
  valid_binary (S754_finite false mx ex) = true ->
  valid_binary (S754_finite false my ey) = true ->
  valid_binary X = true -> SFfinite X = true ->
  SFrank (S754_finite false mx ex) * 2 ^ 1074
    <= SFrank X * SFrank (S754_finite false my ey) ->
  SFrank (SFdiv prec emax (S754_finite false mx ex) (S754_finite false my ey))
    <= SFrank X.
Proof.
  intros Hx Hy HX HfX Hle.
  pose proof (valid_finite_bounds _ _ _ Hx) as (_ & Hex & _).
  pose proof (valid_finite_bounds _ _ _ Hy) as (_ & Hey & Hmy).
  pose proof (rank_finite_bounds _ _ _ Hx) as Rx.
  pose proof (rank_finite_bounds _ _ _ Hy) as Ry.
  pose proof pow2_1074_lt as [H1074 _].
  cbn [SFrank] in Hle, Rx, Ry. cbv zeta in Hle, Rx, Ry.
  (* X is a positive number *)
  destruct X as [sX|sX| |sX mX eX]; try discriminate; [cbn [SFrank] in Hle; bnia|].
  pose proof (valid_finite_bounds _ _ _ HX) as (HcX & HeX & HmX).
  pose proof (rank_finite_bounds _ _ _ HX) as RX.
  cbn [SFrank] in *. cbv zeta in *.
  destruct sX; [bnia|].
  cbn [SFdiv xorb].
  pose proof (SFdiv_core_binary_spec (Z.pos mx) ex (Z.pos my) ey ltac:(blia) ltac:(blia)) as Hc.
  pose proof (SFdiv_core_binary_loc (Z.pos mx) ex (Z.pos my) ey ltac:(blia) ltac:(blia)) as Hl.
  destruct (SFdiv_core_binary prec emax (Z.pos mx) ex (Z.pos my) ey) as [[q e'] l].
  destruct Hc as (He1 & He2 & HE & Hq & Hlo & Hhi). destruct Hl as [Hdelta Hexact].
  destruct (binary_round_aux_form false q e' l Hq HE) as (mr & Hmr & Hmrex & _ & Hr).
  rewrite Hr.
  (* the exponent of the quotient is at most that of X *)
  pose proof (digits2_pos_bounds mx) as [Hdx _].
  pose proof (digits2_pos_bounds my) as [_ Hdy].
  pose proof (digits2_pos_bounds mX) as [_ HdX].
  cbn [Zdigits2] in Hdelta.
  set (dx := Z.pos (digits2_pos mx)) in *. set (dy := Z.pos (digits2_pos my)) in *.
  set (dX := Z.pos (digits2_pos mX)) in *.
  assert (Hdx1 : 1 <= dx) by (unfold dx; blia).
  assert (Hdy1 : 1 <= dy) by (unfold dy; blia).
  assert (HdX1 : 1 <= dX) by (unfold dX; blia).
  clearbody dx dy dX.
  assert (Hd : dx + ex - (dy + ey) <= dX + eX).
  { assert (dx - 1 + (ex + 1074) + 1074 < dX + (eX + 1074) + (dy + (ey + 1074))); [|blia].
    apply pow2_lt_mono_inv; [blia|].
    assert (0 < 2 ^ (ex + 1074)) by (apply pow2_pos; blia).
    assert (0 < 2 ^ (eX + 1074)) by (apply pow2_pos; blia).
    assert (0 < 2 ^ (ey + 1074)) by (apply pow2_pos; blia).
    assert (0 < 2 ^ (dx - 1)) by (apply pow2_pos; blia).
    replace (2 ^ (dx - 1 + (ex + 1074) + 1074))
      with (2 ^ (dx - 1) * 2 ^ (ex + 1074) * 2 ^ 1074)
      by (rewrite <- !Z.pow_add_r by blia; reflexivity).
    replace (2 ^ (dX + (eX + 1074) + (dy + (ey + 1074))))
      with (2 ^ dX * 2 ^ (eX + 1074) * (2 ^ dy * 2 ^ (ey + 1074)))
      by (rewrite <- !Z.pow_add_r by blia; reflexivity).
    apply Z.le_lt_trans with (Z.pos mx * 2 ^ (ex + 1074) * 2 ^ 1074); [bnia|].
    apply Z.le_lt_trans with (1 := Hle).
    apply Z.mul_lt_mono_nonneg; bnia. }
  assert (HeX' : e' <= eX).
  { apply Z.le_trans with (1 := Hdelta).
    rewrite <- HcX. apply fexp64_mono. blia. }
  (* the bound in units of 2^e' *)
  set (s := ex - ey - e') in *.
  assert (Hs : 0 <= s) by (unfold s; blia).
  assert (HM : Z.pos mx * 2 ^ s <= Z.pos mX * 2 ^ (eX - e') * Z.pos my).
  { set (c := e' + ey + 4148).
    assert (Hc : 0 <= c) by (unfold c; blia).
    assert (Hpc : 0 < 2 ^ c) by (apply pow2_pos; blia).
    apply Z.mul_le_mono_pos_r with (p := 2 ^ c); [exact Hpc|].
    assert (E1 : Z.pos mx * 2 ^ s * 2 ^ c
                 = Z.pos mx * 2 ^ (ex + 1074) * 2 ^ 1074 * 2 ^ 2000).
    { rewrite <- !Z.mul_assoc, <- !Z.pow_add_r by blia. do 2 f_equal. unfold s, c. blia. }
    assert (E2 : Z.pos mX * 2 ^ (eX - e') * Z.pos my * 2 ^ c
                 = Z.pos mX * 2 ^ (eX + 1074) * (Z.pos my * 2 ^ (ey + 1074)) * 2 ^ 2000).
    { replace (Z.pos mX * 2 ^ (eX - e') * Z.pos my * 2 ^ c)
        with (Z.pos mX * Z.pos my * (2 ^ (eX - e') * 2 ^ c)) by ring.
      replace (Z.pos mX * 2 ^ (eX + 1074) * (Z.pos my * 2 ^ (ey + 1074)) * 2 ^ 2000)
        with (Z.pos mX * Z.pos my * (2 ^ (eX + 1074) * 2 ^ (ey + 1074) * 2 ^ 2000)) by ring.
      rewrite <- !Z.pow_add_r by blia. do 2 f_equal. unfold c. blia. }
    rewrite E1, E2. apply Z.mul_le_mono_nonneg_r; [blia | exact Hle]. }
  assert (HpXe : 0 < 2 ^ (eX - e')) by (apply pow2_pos; blia).
  destruct (Z.eq_dec (Z.pos mx * 2 ^ s) (q * Z.pos my)) as [Heq|Hne].
  - (* the quotient is exact *)
    specialize (Hexact Heq). subst l.
    assert (Hq0 : 0 < q).
    { assert (0 < 2 ^ s) by (apply pow2_pos; blia). bnia. }
    apply (round_upper q e' mr (Z.pos mX) eX e'); try blia.
    + intros Hmod. apply Hmrex; [reflexivity | exact Hmod].
    + rewrite Z.sub_diag. change (2 ^ 0) with 1. bnia.
  - apply (round_upper_above q e' mr (Z.pos mX) eX e'); try blia.
    rewrite Z.sub_diag. change (2 ^ 0) with 1. bnia.
Qed.

(** The quotient of two positive finite numbers is not above a finite
    number [z] over the exact quotient. *)
Theorem div_upper x y z :
  is_finite x = true -> is_finite y = true -> 0 < Frank x -> 0 < Frank y ->
  is_finite z = true -> Frank x * 2 ^ 1074 <= Frank z * Frank y ->
  is_nan (x / y) = false /\ 0 <= Frank (x / y) <= Frank z.
Proof.
  intros Fx Fy Hx Hy Fz Hle.
  destruct (positive_finite_form x Fx Hx) as (mx & ex & Ex).
  destruct (positive_finite_form y Fy Hy) as (my & ey & Ey).
  pose proof (Prim2SF_valid x) as Vx. pose proof (Prim2SF_valid y) as Vy.
  rewrite Ex in Vx. rewrite Ey in Vy.
  destruct (SFdiv_lower mx ex my ey Vx Vy) as (Hn & H0 & _).
  destruct (is_finite_valid z Fz) as [Vz Fz'].
  pose proof (SFdiv_upper mx ex my ey (Prim2SF z) Vx Vy Vz Fz') as Hup.
  rewrite is_nan_spec. unfold Frank in *. rewrite FloatAxioms.div_spec. unfold SF64div.
  rewrite Ex, Ey in *.
  split; [exact Hn|]. split; [exact H0|]. apply Hup. exact Hle.
Qed.

(** ** Dyadic numbers of at most 53 bits are binary64 numbers *)

Lemma representable k e :
  0 < k < 2 ^ 53 -> -1022 <= e <= 971 ->
  exists z : float, is_finite z = true /\ Frank z = k * 2 ^ (e + 1074).
Proof.
  intros Hk He. set (d := Zdigits2 k).
  pose proof (Zdigits2_bounds k ltac:(blia)) as [Hlo Hhi]. fold d in Hlo, Hhi.
  assert (Hd1 : 1 <= d) by (unfold d; destruct k; cbn; blia).
  assert (Hd53 : d <= 53) by (apply (Zdigits2_le_iff k 53); blia).
  set (M := k * 2 ^ (53 - d)).
  assert (Hp : 0 < 2 ^ (53 - d)) by (apply pow2_pos; blia).
  assert (HM : 0 < M) by (unfold M; bnia).
  assert (HdM : Zdigits2 M = 53).
  { unfold M. rewrite Zdigits2_mul_pow2 by blia. fold d. blia. }
  set (X := S754_finite false (Z.to_pos M) (d + e - 53)).
  assert (VX : valid_binary X = true).
  { cbn [valid_binary X]. unfold bounded, canonical_mantissa. rewrite fexp_fexp64.
    replace (Z.pos (digits2_pos (Z.to_pos M))) with (Zdigits2 M)
      by (destruct M; try blia; reflexivity).
    rewrite HdM. apply andb_true_intro. split.
    - apply Z.eqb_eq. unfold fexp64. blia.
    - apply Z.leb_le. change (emax - prec) with 971. blia. }
  exists (SF2Prim X). rewrite is_finite_spec. unfold Frank.
  rewrite (Prim2SF_SF2Prim X VX). split; [reflexivity|].
  cbn [SFrank X]. cbv zeta. rewrite Z2Pos.id by blia. unfold M.
  rewrite <- Z.mul_assoc, <- Z.pow_add_r by blia. do 2 f_equal. blia.
Qed.

(** ** Quotients of integers between representable bounds *)

Lemma int_quotient_bounds p L :
  1 <= p <= INT_MAX -> 1 <= L <= INT_MAX ->
  let q := (int_to_double p / int_to_double L)%float in
  is_nan q = false /\ 0 <= Frank q /\
  forall z : float, is_finite z = true ->
    (Frank z * L <= p * 2 ^ 1074 -> Frank z <= Frank q) /\
    (p * 2 ^ 1074 <= Frank z * L -> Frank q <= Frank z).
Proof.
  intros Hp HL q. unfold INT_MAX in *.
  destruct (int_to_double_rank p ltac:(blia)) as [_ Rp].
  destruct (int_to_double_rank L ltac:(blia)) as [_ RL].
  pose proof (int_to_double_finite p ltac:(blia)) as Fp.
  pose proof (int_to_double_finite L ltac:(blia)) as FL.
  pose proof pow2_1074_lt as [H1074 _].
  assert (Hxp : 0 < Frank (int_to_double p)) by (rewrite Rp; bnia).
  assert (HxL : 0 < Frank (int_to_double L)) by (rewrite RL; bnia).
  assert (F0 : is_finite 0 = true) by reflexivity.
  destruct (div_lower (int_to_double p) (int_to_double L) 0%float Fp FL Hxp HxL F0)
    as (Hn & H0 & _); [change (Frank 0) with 0; blia|].
  split; [exact Hn|]. split; [exact H0|].
  intros z Fz. split; intros Hle.
  - apply (div_lower (int_to_double p) (int_to_double L) z Fp FL Hxp HxL Fz).
    rewrite Rp, RL. bnia.
  - apply (div_upper (int_to_double p) (int_to_double L) z Fp FL Hxp HxL Fz).
    rewrite Rp, RL. bnia.
Qed.

Lemma unit_interval_finite a :
  (0 <=? a)%float = true -> (a <=? 1)%float = true ->
  is_finite a = true /\ 0 <= Frank a <= 2 ^ 1074.
Proof.
  intros H0 H1. apply leb_true in H0 as (_ & Na & H0). apply leb_true in H1 as (_ & _ & H1).
  change (Frank 0) with 0 in H0. rewrite Frank_one in H1.
  pose proof pow2_1074_lt as [H1074 Hinf].
  split; [|blia]. apply is_finite_rank. split; [exact Na | blia].
Qed.

Lemma div_nonneg x y :
  is_nan x = false -> 0 <= Frank x ->
  is_finite y = true -> 0 < Frank y ->
  is_nan (x / y) = false /\ 0 <= Frank (x / y).
Proof.
  intros Nx Hx Fy Hy.
  assert (Hinf : 0 < 2 ^ 2100) by (apply pow2_pos; blia).
  destruct (is_finite x) eqn:Fx.
  - destruct (Z.eq_dec (Frank x) 0) as [Hz|Hnz].
    + (* zero *)
      destruct (positive_finite_form y Fy Hy) as (my & ey & Ey).
      rewrite is_nan_spec. unfold Frank in *. rewrite FloatAxioms.div_spec. unfold SF64div.
      rewrite Ey. rewrite is_finite_spec in Fx. pose proof (Prim2SF_valid x) as Vx.
      destruct (Prim2SF x) as [s|s| |s m e]; try discriminate.
      * cbn [SFdiv SFis_nan SFrank]. split; [reflexivity|blia].
      * pose proof (rank_finite_bounds _ _ _ Vx). cbn [SFrank] in Hz. cbv zeta in Hz.
        destruct s; blia.
    + assert (F0 : is_finite 0 = true) by reflexivity.
      destruct (div_lower x y 0%float Fx Fy ltac:(blia) Hy F0) as (Hn & H0 & _);
        [change (Frank 0) with 0; blia|]. auto.
  - (* plus infinity *)
    destruct (positive_finite_form y Fy Hy) as (my & ey & Ey).
    rewrite is_nan_spec in *. rewrite is_finite_spec in Fx. unfold Frank in *.
    rewrite FloatAxioms.div_spec. unfold SF64div. rewrite Ey.
    destruct (Prim2SF x) as [s|s| |s m e]; try discriminate.
    destruct s; cbn [SFrank] in Hx; [blia|].
    cbn [SFdiv xorb SFis_nan SFrank]. split; [reflexivity|blia].
Qed.

End Binary64.

Import Binary64.

(** * Part 3: the cost model *)

(** ** The unordered path *)

(** C1: a path with no ORDER BY operator ([indexorderbys] empty) gets infinite
    startup and total cost and zero selectivity, correlation and pages,
    whatever the list count, the settings and the rest of the query are. *)
Theorem no_order_never_used :
  forall getlists generic pagecosts g root path loop_count,
    indexorderbys path = [] ->
    ivfflatcostestimate getlists generic pagecosts g root path loop_count
    = Some {| est_indexStartupCost := infinity; est_indexTotalCost := infinity;
              est_indexSelectivity := 0; est_indexCorrelation := 0;
              est_indexPages := 0 |}.
Proof.
  intros getlists generic pagecosts g root path loop_count Horder.
  unfold ivfflatcostestimate. rewrite Horder. reflexivity.
Qed.

Lemma no_order_never_used_witness :
  ivfflatcostestimate (fun _ => 100) sample_genericcostestimate (fun _ => 1%float)
    {| ivfflat_probes := 10; ivfflat_max_probes := -1; ivfflat_streaming := true |}
    {| limit_tuples := 50 |}
    {| indexinfo := indexinfo (sample_path 1000 [] 10); indexorderbys := [] |} 1
  = Some {| est_indexStartupCost := infinity; est_indexTotalCost := infinity;
            est_indexSelectivity := 0; est_indexCorrelation := 0;
            est_indexPages := 0 |}.
Proof. apply no_order_never_used. reflexivity. Defined.

(** ** The ratio of lists to visit: range and saturation *)

Theorem cost_ratio_range probes lists :
  1 <= probes <= INT_MAX -> 1 <= lists <= INT_MAX ->
  is_nan (int_to_double probes / int_to_double lists) = false /\
  (0 <? cost_ratio probes lists)%float = true /\
  (cost_ratio probes lists <=? 1)%float = true.
Proof.
  intros Hp HL.
  assert (Fz : is_finite 0x1p-31 = true) by reflexivity.
  assert (Rz : Frank 0x1p-31 = 2 ^ 1043) by reflexivity.
  destruct (int_quotient_lower probes lists 0x1p-31%float 1043 Hp HL Fz Rz ltac:(lia))
    as [Hn Hlo].
  { unfold INT_MAX in *. change (2 ^ 1074) with (2 ^ 1043 * 2 ^ 31).
    assert (0 < 2 ^ 1043) by (apply pow2_pos; lia). nia. }
  split; [exact Hn|].
  assert (0 < 2 ^ 1043) by (apply pow2_pos; lia).
  unfold cost_ratio.
  set (q := (int_to_double probes / int_to_double lists)%float) in *.
  assert (N1 : is_nan 1 = false) by reflexivity.
  assert (N0 : is_nan 0 = false) by reflexivity.
  destruct (1 <? q)%float eqn:Hgt.
  - split; reflexivity.
  - rewrite (ltb_rank 1 q N1 Hn) in Hgt. apply Z.ltb_ge in Hgt.
    split.
    + apply ltb_true. change (Frank 0) with 0. repeat split; try assumption. lia.
    + apply leb_true. repeat split; assumption.
Qed.

(** When [probes >= lists] the ratio is exactly 1: the estimate is the one
    of a probe count clamped to [lists]. *)
Theorem cost_ratio_saturates probes lists :
  1 <= lists <= probes -> probes <= INT_MAX ->
  cost_ratio probes lists = 1%float.
Proof.
  intros HL Hp.
  assert (F1 : is_finite 1 = true) by reflexivity.
  pose proof pow2_1074_lt as [H1074 _].
  destruct (int_quotient_lower probes lists 1%float 1074 ltac:(lia) ltac:(lia) F1 Frank_one
              ltac:(lia) ltac:(nia)) as [Hn Hlo].
  unfold cost_ratio.
  set (q := (int_to_double probes / int_to_double lists)%float) in *.
  assert (N1 : is_nan 1 = false) by reflexivity.
  destruct (1 <? q)%float eqn:Hgt; [reflexivity|].
  rewrite (ltb_rank 1 q N1 Hn) in Hgt. apply Z.ltb_ge in Hgt. rewrite Frank_one in Hgt.
  apply Frank_inj; try assumption; rewrite ?Frank_one; lia.
Qed.

Theorem cost_ratio_min probes lists :
  1 <= probes <= INT_MAX -> 1 <= lists <= INT_MAX ->
  cost_ratio probes lists = cost_ratio (Z.min probes lists) lists.
Proof.
  intros Hp HL. destruct (Z_le_gt_dec probes lists) as [Hle|Hgt].
  - rewrite Z.min_l by lia. reflexivity.
  - rewrite Z.min_r by lia.
    rewrite (cost_ratio_saturates probes lists) by lia.
    rewrite (cost_ratio_saturates lists lists) by lia. reflexivity.
Qed.

(** ** The probe decision *)

Lemma double_to_int_range q n :
  double_to_int q = Some n -> INT_MIN <= n <= INT_MAX.
Proof.
  unfold double_to_int. destruct (SFtrunc (Prim2SF q)) as [k|]; [|discriminate].
  destruct ((INT_MIN <=? k) && (k <=? INT_MAX)) eqn:Hr; [|discriminate].
  intros H. injection H as <-. apply andb_prop in Hr as [H1 H2].
  apply Z.leb_le in H1, H2. lia.
Qed.

Lemma EstimateProbes_range root path lists est :
  0 <= lists <= INT_MAX -> EstimateProbes root path lists = Some est ->
  INT_MIN <= est <= INT_MAX.
Proof.
  intros HL. unfold EstimateProbes.
  destruct (limit_tuples root <? 0)%float.
  - intros H. injection H as <-. unfold INT_MIN, INT_MAX. lia.
  - cbv zeta. destruct (tuplesPerList path lists =? 0)%float.
    + intros H. injection H as <-. unfold INT_MIN, INT_MAX in *. lia.
    + apply double_to_int_range.
Qed.

Lemma cost_probes_range g root path lists p :
  gucs_in_range g -> 0 <= lists <= INT_MAX ->
  cost_probes g root path lists = Some p -> 1 <= p <= INT_MAX.
Proof.
  intros [Hp Hm] HL. unfold cost_probes, IVFFLAT_MIN_LISTS, IVFFLAT_MAX_LISTS in *.
  destruct (ivfflat_streaming g).
  - destruct (EstimateProbes root path lists) as [est|] eqn:He; [|discriminate].
    pose proof (EstimateProbes_range _ _ _ _ HL He) as Hr.
    cbv zeta. intros H. injection H as <-. unfold INT_MIN, INT_MAX in *.
    destruct (Z.eqb_spec (ivfflat_max_probes g) (-1)); cbn [negb]; lia.
  - intros H. injection H as <-. unfold INT_MAX. lia.
Qed.

(** C2, as the code has it: with the settings in their declared ranges and a
    list count [1 <= lists <= INT_MAX], a probe decision [p] satisfies
    [1 <= p]; it is not kept under [lists], but when it exceeds [lists] the
    ratio of lists to visit is exactly 1.0, so that the estimate is the one
    of [min p lists], which lies between 1 and [lists]. *)
Theorem probes_at_least_one :
  forall g root path lists p,
    gucs_in_range g -> 1 <= lists <= INT_MAX ->
    cost_probes g root path lists = Some p ->
    1 <= p <= INT_MAX /\
    (p <= lists \/ cost_ratio p lists = 1%float) /\
    1 <= Z.min p lists <= lists /\
    cost_ratio p lists = cost_ratio (Z.min p lists) lists.
Proof.
  intros g root path lists p Hg HL Hp.
  pose proof (cost_probes_range g root path lists p Hg ltac:(lia) Hp) as Hr.
  split; [exact Hr|]. split; [|split; [lia|]].
  - destruct (Z_le_gt_dec p lists) as [Hle|Hgt]; [left; exact Hle|right].
    apply cost_ratio_saturates; lia.
  - apply cost_ratio_min; lia.
Qed.

Lemma probes_at_least_one_witness :
  1 <= 25 <= INT_MAX /\
  (25 <= 5 \/ cost_ratio 25 5 = 1%float) /\
  1 <= Z.min 25 5 <= 5 /\
  cost_ratio 25 5 = cost_ratio (Z.min 25 5) 5.
Proof.
  apply (probes_at_least_one
           {| ivfflat_probes := 1; ivfflat_max_probes := -1; ivfflat_streaming := true |}
           {| limit_tuples := 50 |} (sample_path 10 [] 10) 5 25).
  - unfold gucs_in_range, IVFFLAT_MIN_LISTS, IVFFLAT_MAX_LISTS; cbn; lia.
  - unfold INT_MAX; lia.
  - vm_compute; reflexivity.
Defined.

(** C2 fails as stated: with streaming off, 10 probes are kept for an index
    of 5 lists; with streaming on and no ceiling, a limit of 50 rows over 2
    rows per list gives 25 probes for 5 lists. *)
Lemma probes_can_exceed_lists :
  cost_probes {| ivfflat_probes := 10; ivfflat_max_probes := -1; ivfflat_streaming := false |}
    {| limit_tuples := -1 |} (sample_path 1000 [] 10) 5 = Some 10 /\
  cost_probes {| ivfflat_probes := 1; ivfflat_max_probes := -1; ivfflat_streaming := true |}
    {| limit_tuples := 50 |} (sample_path 10 [] 10) 5 = Some 25 /\
  (5 <? 10) = true /\ (5 <? 25) = true.
Proof. vm_compute. repeat split; reflexivity. Qed.

(** C3, as the code has it: with streaming off the probe count is the
    configured [ivfflat_probes], whatever the limit and the restrictions
    are; it is [min probes lists] when [probes <= lists], and otherwise the
    ratio of lists to visit is still the one of [min probes lists]. *)
Theorem fixed_probes_not_clamped :
  forall g root path lists,
    ivfflat_streaming g = false ->
    cost_probes g root path lists = Some (ivfflat_probes g) /\
    (ivfflat_probes g <= lists ->
     cost_probes g root path lists = Some (Z.min (ivfflat_probes g) lists)) /\
    (gucs_in_range g -> 1 <= lists <= INT_MAX ->
     cost_ratio (ivfflat_probes g) lists
     = cost_ratio (Z.min (ivfflat_probes g) lists) lists).
Proof.
  intros g root path lists Hs. unfold cost_probes. rewrite Hs.
  split; [reflexivity|]. split.
  - intros Hle. rewrite Z.min_l by exact Hle. reflexivity.
  - intros [Hp _] HL. unfold IVFFLAT_MIN_LISTS, IVFFLAT_MAX_LISTS in Hp.
    apply cost_ratio_min; unfold INT_MAX in *; lia.
Qed.

Lemma fixed_probes_not_clamped_witness :
  cost_probes {| ivfflat_probes := 10; ivfflat_max_probes := 3; ivfflat_streaming := false |}
    {| limit_tuples := 50 |} (sample_path 1000 [0.5%float] 10) 5 = Some 10 /\
  cost_ratio 10 5 = cost_ratio (Z.min 10 5) 5.
Proof.
  destruct (fixed_probes_not_clamped
              {| ivfflat_probes := 10; ivfflat_max_probes := 3; ivfflat_streaming := false |}
              {| limit_tuples := 50 |} (sample_path 1000 [0.5%float] 10) 5 eq_refl)
    as (H1 & _ & H3).
  split; [exact H1|]. apply H3.
  - unfold gucs_in_range, IVFFLAT_MIN_LISTS, IVFFLAT_MAX_LISTS; cbn; lia.
  - unfold INT_MAX; lia.
Defined.

(** C3 fails as stated: with streaming off and 10 configured probes, the
    probe count for an index of 5 lists is 10, not [min 10 5]. *)
Lemma fixed_probes_exceed_min :
  cost_probes {| ivfflat_probes := 10; ivfflat_max_probes := -1; ivfflat_streaming := false |}
    {| limit_tuples := -1 |} (sample_path 1000 [] 10) 5 = Some 10 /\
  Z.min 10 5 = 5.
Proof. split; reflexivity. Qed.

(** ** The adaptive estimate *)

(** C4, as the code has it: with a limit that is not negative and a non-zero
    number of rows per list, the estimate is the quotient
    [limit_tuples / tuplesPerList] converted to [int], that is, truncated
    toward zero (rounded down, for a positive quotient), with no cap; it is
    defined when the integer part of the quotient is an [int]. *)
Theorem EstimateProbes_truncates :
  forall root path lists,
    (limit_tuples root <? 0)%float = false ->
    (tuplesPerList path lists =? 0)%float = false ->
    let q := (limit_tuples root / tuplesPerList path lists)%float in
    (forall n, EstimateProbes root path lists = Some n ->
       (int_to_double (Z.abs n) <=? abs q)%float = true /\
       (abs q <? int_to_double (Z.abs n + 1))%float = true /\
       ((0 <=? q)%float = true -> 0 <= n) /\
       ((q <=? 0)%float = true -> n <= 0)) /\
    ((-2147483649 <? q)%float = true -> (q <? 2147483648)%float = true ->
     exists n, EstimateProbes root path lists = Some n).
Proof.
  intros root path lists Hlim Htpl q.
  assert (HE : EstimateProbes root path lists = double_to_int q).
  { unfold EstimateProbes. rewrite Hlim. cbv zeta. rewrite Htpl. reflexivity. }
  rewrite HE. split.
  - intros n Hn. apply (double_to_int_truncates q n Hn).
  - apply double_to_int_defined.
Qed.

Lemma EstimateProbes_truncates_witness :
  (forall n, EstimateProbes {| limit_tuples := 25 |} (sample_path 1000 [] 10) 100 = Some n ->
     (int_to_double (Z.abs n) <=? abs 2.5)%float = true /\
     (abs 2.5 <? int_to_double (Z.abs n + 1))%float = true /\
     ((0 <=? 2.5)%float = true -> 0 <= n) /\
     ((2.5 <=? 0)%float = true -> n <= 0)) /\
  ((-2147483649 <? 2.5)%float = true -> (2.5 <? 2147483648)%float = true ->
   exists n, EstimateProbes {| limit_tuples := 25 |} (sample_path 1000 [] 10) 100 = Some n).
Proof.
  apply (EstimateProbes_truncates {| limit_tuples := 25 |} (sample_path 1000 [] 10) 100);
    vm_compute; reflexivity.
Defined.

(** C4 fails as stated: for a limit of 25 rows and 10 rows per list the
    quotient is 2.5; the estimate is 2, and its ceiling is 3. *)
Lemma EstimateProbes_not_ceil :
  tuplesPerList (sample_path 1000 [] 10) 100 = 10%float /\
  EstimateProbes {| limit_tuples := 25 |} (sample_path 1000 [] 10) 100 = Some 2 /\
  double_ceil_to_int (25 / tuplesPerList (sample_path 1000 [] 10) 100)%float = Some 3.
Proof. vm_compute. repeat split; reflexivity. Qed.

(** C5: in streaming mode the probe count is the larger of the configured
    probes and the estimate, then capped by [ivfflat_max_probes] when that
    is not -1; for 1000 tuples in 100 lists, no restriction, a limit of 50
    and 1 configured probe there are 10 rows per list and the estimate is
    5: the probe count is 5 with no ceiling and 3 with the ceiling 3. *)
Theorem streaming_probes_floor_then_ceiling :
  (forall g root path lists est,
     ivfflat_streaming g = true ->
     EstimateProbes root path lists = Some est ->
     (ivfflat_max_probes g <> -1 ->
      cost_probes g root path lists
      = Some (Z.min (Z.max (ivfflat_probes g) est) (ivfflat_max_probes g))) /\
     (ivfflat_max_probes g = -1 ->
      cost_probes g root path lists = Some (Z.max (ivfflat_probes g) est))) /\
  restrict_selectivity (indrestrictinfo (indexinfo (sample_path 1000 [] 10))) = 1%float /\
  tuplesPerList (sample_path 1000 [] 10) 100 = 10%float /\
  EstimateProbes {| limit_tuples := 50 |} (sample_path 1000 [] 10) 100 = Some 5 /\
  cost_probes {| ivfflat_probes := 1; ivfflat_max_probes := -1; ivfflat_streaming := true |}
    {| limit_tuples := 50 |} (sample_path 1000 [] 10) 100 = Some 5 /\
  cost_probes {| ivfflat_probes := 1; ivfflat_max_probes := 3; ivfflat_streaming := true |}
    {| limit_tuples := 50 |} (sample_path 1000 [] 10) 100 = Some 3.
Proof.
  split; [|vm_compute; repeat split; reflexivity].
  intros g root path lists est Hs He. unfold cost_probes. rewrite Hs, He. cbv zeta.
  split; intros Hm.
  - apply Z.eqb_neq in Hm. rewrite Hm. reflexivity.
  - apply Z.eqb_eq in Hm. rewrite Hm. reflexivity.
Qed.

Lemma streaming_probes_floor_then_ceiling_witness :
  cost_probes {| ivfflat_probes := 2; ivfflat_max_probes := 4; ivfflat_streaming := true |}
    {| limit_tuples := 70 |} (sample_path 1000 [0.5%float] 10) 100
  = Some (Z.min (Z.max 2 14) 4).
Proof.
  apply (proj1 streaming_probes_floor_then_ceiling
           {| ivfflat_probes := 2; ivfflat_max_probes := 4; ivfflat_streaming := true |}
           {| limit_tuples := 70 |} (sample_path 1000 [0.5%float] 10) 100 14).
  - reflexivity.
  - vm_compute; reflexivity.
  - cbn; lia.
Defined.

(** C6, as the code has it: when the limit is not negative and the number of
    rows per list is zero, the estimate is the list count (no error); in
    streaming mode the probe count is then the larger of the configured
    probes and the list count, capped by [ivfflat_max_probes] when that is
    not -1: it is the list count (and the ratio 1.0) when the configured
    probes do not exceed it and the ceiling is absent or not below it. *)
Theorem zero_yield_falls_back_to_lists :
  forall g root path lists,
    (limit_tuples root <? 0)%float = false ->
    (tuplesPerList path lists =? 0)%float = true ->
    EstimateProbes root path lists = Some lists /\
    (ivfflat_streaming g = true ->
     cost_probes g root path lists
     = Some (if ivfflat_max_probes g =? -1 then Z.max (ivfflat_probes g) lists
             else Z.min (Z.max (ivfflat_probes g) lists) (ivfflat_max_probes g))) /\
    (ivfflat_streaming g = true -> ivfflat_probes g <= lists ->
     ivfflat_max_probes g = -1 \/ lists <= ivfflat_max_probes g ->
     cost_probes g root path lists = Some lists /\
     (1 <= lists <= INT_MAX -> cost_ratio lists lists = 1%float)).
Proof.
  intros g root path lists Hlim Htpl.
  assert (HE : EstimateProbes root path lists = Some lists).
  { unfold EstimateProbes. rewrite Hlim. cbv zeta. rewrite Htpl. reflexivity. }
  split; [exact HE|]. split.
  - intros Hs. unfold cost_probes. rewrite Hs, HE. cbv zeta.
    destruct (ivfflat_max_probes g =? -1); reflexivity.
  - intros Hs Hp Hm. split.
    + unfold cost_probes. rewrite Hs, HE. cbv zeta.
      destruct (Z.eqb_spec (ivfflat_max_probes g) (-1)); cbn [negb]; f_equal; lia.
    + intros HL. apply cost_ratio_saturates; lia.
Qed.

Lemma zero_yield_falls_back_to_lists_witness :
  EstimateProbes {| limit_tuples := 50 |} (sample_path 0 [] 10) 100 = Some 100 /\
  cost_probes {| ivfflat_probes := 1; ivfflat_max_probes := -1; ivfflat_streaming := true |}
    {| limit_tuples := 50 |} (sample_path 0 [] 10) 100 = Some 100.
Proof.
  pose proof (zero_yield_falls_back_to_lists
                {| ivfflat_probes := 1; ivfflat_max_probes := -1; ivfflat_streaming := true |}
                {| limit_tuples := 50 |} (sample_path 0 [] 10) 100 eq_refl eq_refl)
    as (HE & _ & Hp).
  split; [exact HE|].
  apply Hp; [reflexivity | cbn; lia | left; reflexivity].
Defined.

(** C6 fails as stated: with no tuples, 100 lists and the ceiling 3, the
    estimate is 100 but the probe count is 3, and 3 lists in 100 are
    visited. *)
Lemma zero_yield_capped_by_max_probes :
  (limit_tuples {| limit_tuples := 50 |} <? 0)%float = false /\
  (tuplesPerList (sample_path 0 [] 10) 100 =? 0)%float = true /\
  cost_probes {| ivfflat_probes := 1; ivfflat_max_probes := 3; ivfflat_streaming := true |}
    {| limit_tuples := 50 |} (sample_path 0 [] 10) 100 = Some 3 /\
  (cost_ratio 3 100 <? 1)%float = true.
Proof. vm_compute. repeat split; reflexivity. Qed.

(** With a negative limit (no LIMIT) the estimate is 0: the adaptive step
    leaves the configured probes, to which the ceiling still applies. *)
Theorem negative_limit_keeps_probes :
  forall g root path lists,
    (limit_tuples root <? 0)%float = true ->
    0 <= ivfflat_probes g ->
    EstimateProbes root path lists = Some 0 /\
    (ivfflat_streaming g = true ->
     cost_probes g root path lists
     = Some (if ivfflat_max_probes g =? -1 then ivfflat_probes g
             else Z.min (ivfflat_probes g) (ivfflat_max_probes g))).
Proof.
  intros g root path lists Hlim Hp.
  assert (HE : EstimateProbes root path lists = Some 0)
    by (unfold EstimateProbes; rewrite Hlim; reflexivity).
  split; [exact HE|]. intros Hs. unfold cost_probes. rewrite Hs, HE. cbv zeta.
  rewrite Z.max_l by exact Hp. destruct (ivfflat_max_probes g =? -1); reflexivity.
Qed.

Lemma negative_limit_keeps_probes_witness :
  EstimateProbes {| limit_tuples := -1 |} (sample_path 1000 [] 10) 100 = Some 0 /\
  cost_probes {| ivfflat_probes := 7; ivfflat_max_probes := -1; ivfflat_streaming := true |}
    {| limit_tuples := -1 |} (sample_path 1000 [] 10) 100 = Some 7.
Proof.
  destruct (negative_limit_keeps_probes
              {| ivfflat_probes := 7; ivfflat_max_probes := -1; ivfflat_streaming := true |}
              {| limit_tuples := -1 |} (sample_path 1000 [] 10) 100 eq_refl)
    as [HE Hp]; [cbn; lia|].
  split; [exact HE | apply Hp; reflexivity].
Defined.

(** The conversion to [int] is not always defined: a limit of 10^10 rows
    over one row per list asks for more probes than an [int] holds. *)
Example EstimateProbes_undefined :
  EstimateProbes {| limit_tuples := 1e10 |} (sample_path 1000 [] 10) 1000 = None.
Proof. vm_compute. reflexivity. Qed.

(** ** The combined selectivity *)

Lemma counted_selec_genuine s : counted_selec s = genuine_selectivity s.
Proof. reflexivity. Qed.

Lemma fold_selectivity_filter l acc :
  fold_left selectivity_step l acc
  = fold_left PrimFloat.mul (filter genuine_selectivity (map norm_selec l)) acc.
Proof.
  revert acc. induction l as [|r l IH]; intros acc; [reflexivity|].
  cbn [fold_left map filter]. unfold selectivity_step at 2.
  rewrite counted_selec_genuine.
  destruct (genuine_selectivity (norm_selec r)); cbn [fold_left]; apply IH.
Qed.

Lemma fold_selectivity_factor l acc :
  fold_left selectivity_step l acc
  = fold_left (fun a r => (a * selectivity_factor r)%float) l acc.
Proof.
  revert acc. induction l as [|r l IH]; intros acc; [reflexivity|].
  cbn [fold_left]. rewrite IH. f_equal.
  unfold selectivity_step, selectivity_factor. rewrite counted_selec_genuine.
  destruct (genuine_selectivity (norm_selec r)); [reflexivity|].
  symmetry. apply mul_one_r.
Qed.

(** C7: the selectivity of the restrictions is the product, from 1.0, of
    the selectivities that lie in [0, 1] and are not [DEFAULT_INEQ_SEL];
    every other condition counts as the factor 1.  The selectivities 0.5 and
    0.2 combine to 0.1, also with a [DEFAULT_INEQ_SEL] condition between
    them, which lies in [0, 1] and is left out.  (0.2 and 0.1 are the
    binary64 numbers nearest to them.) *)
Theorem restrict_selectivity_product :
  (forall l, restrict_selectivity l = combined_selectivity l) /\
  (forall l, restrict_selectivity l
             = fold_left (fun a r => (a * selectivity_factor r)%float) l 1%float) /\
  restrict_selectivity
    [ {| norm_selec := 0.5 |}; {| norm_selec := 0x1.999999999999ap-3 |} ]
  = 0x1.999999999999ap-4%float /\
  restrict_selectivity
    [ {| norm_selec := 0.5 |}; {| norm_selec := DEFAULT_INEQ_SEL |};
      {| norm_selec := 0x1.999999999999ap-3 |} ]
  = 0x1.999999999999ap-4%float /\
  ((0 <=? DEFAULT_INEQ_SEL) && (DEFAULT_INEQ_SEL <=? 1))%float = true /\
  genuine_selectivity DEFAULT_INEQ_SEL = false.
Proof.
  split; [|split].
  - intros l. apply fold_selectivity_filter.
  - intros l. apply fold_selectivity_factor.
  - vm_compute. repeat split; reflexivity.
Qed.

(** ** The page-cost adjustment *)

Theorem adjust_total_cost_le costs spc_seq_page_cost relpages ratio :
  0 <= relpages < 2 ^ 32 ->
  (int_to_double relpages <? numIndexPages costs)%float = true ->
  (ratio <? 0.5)%float = true ->
  is_finite (indexTotalCost costs) = true ->
  is_finite (numIndexPages costs) = true ->
  is_finite (spc_random_page_cost costs) = true ->
  (0 <=? spc_seq_page_cost)%float = true ->
  (spc_seq_page_cost <=? spc_random_page_cost costs)%float = true ->
  (adjust_total_cost costs spc_seq_page_cost relpages ratio
   <=? indexTotalCost costs)%float = true.
Proof.
  intros Hpages Hbranch Hratio Ft FN Fr Hs0 Hsr.
  unfold adjust_total_cost. rewrite Hbranch, Hratio. cbn [andb].
  set (t := indexTotalCost costs) in *. set (N := numIndexPages costs) in *.
  set (r := spc_random_page_cost costs) in *. set (s := spc_seq_page_cost) in *.
  set (P := int_to_double relpages) in *.
  destruct (int_to_double_rank relpages ltac:(blia)) as [NP RP]. fold P in NP, RP.
  pose proof (int_to_double_finite relpages ltac:(blia)) as FP. fold P in FP.
  pose proof pow2_1074_lt as [H1074 _].
  apply ltb_true in Hbranch as (_ & NN & HPN).
  apply leb_true in Hs0 as (_ & Ns & Hs0). change (Frank 0) with 0 in Hs0.
  apply leb_true in Hsr as (_ & Nr & Hsr).
  pose proof (proj1 (is_finite_rank r) Fr) as [_ Hr].
  pose proof (proj1 (is_finite_rank t) Ft) as [Nt Ht].
  assert (Fs : is_finite s = true) by (apply is_finite_rank; split; [exact Ns | blia]).
  (* the two amounts that are subtracted are not negative *)
  destruct (sub_nonneg_finite r s Fr Fs Hsr Hs0) as [Fd Hd].
  destruct (mul_nonneg N (r - s) FN Fd ltac:(bnia) ltac:(blia)) as [Na1 Ha1].
  destruct (sub_nonneg_finite N P FN FP ltac:(blia) ltac:(bnia)) as [Fe He].
  destruct (mul_nonneg (N - P) s Fe Fs ltac:(blia) Hs0) as [Na2 Ha2].
  destruct (sub_nonneg_le t (N * (r - s)) Nt ltac:(blia) Na1 Ha1) as [Nt1 Ht1].
  destruct (sub_nonneg_le (t - N * (r - s)) ((N - P) * s) Nt1 ltac:(blia) Na2 Ha2)
    as [Nt2 Ht2].
  apply leb_true. repeat split; try assumption. blia.
Qed.

(** C8, as the code has it: when the generic model's page count exceeds the
    relation's page count and the ratio is below 0.5, and the sequential
    page cost is neither negative nor above the random page cost (the
    generic model's total cost, page count and random page cost being
    finite), the adjusted total cost is not above the generic model's total
    cost. *)
Theorem adjusted_total_cost_not_raised :
  forall costs spc_seq_page_cost relpages ratio,
    0 <= relpages < 2 ^ 32 ->
    (int_to_double relpages <? numIndexPages costs)%float = true ->
    (ratio <? 0.5)%float = true ->
    is_finite (indexTotalCost costs) = true ->
    is_finite (numIndexPages costs) = true ->
    is_finite (spc_random_page_cost costs) = true ->
    (0 <=? spc_seq_page_cost)%float = true ->
    (spc_seq_page_cost <=? spc_random_page_cost costs)%float = true ->
    (adjust_total_cost costs spc_seq_page_cost relpages ratio
     <=? indexTotalCost costs)%float = true /\
    (est_indexTotalCost (finish_estimate costs spc_seq_page_cost relpages ratio)
     <=? indexTotalCost costs)%float = true.
Proof.
  intros costs s relpages ratio H1 H2 H3 H4 H5 H6 H7 H8.
  split; apply adjust_total_cost_le; assumption.
Qed.

Lemma adjusted_total_cost_not_raised_witness :
  (adjust_total_cost
     {| indexStartupCost := 0; indexTotalCost := 100; indexSelectivity := 1;
        indexCorrelation := 0; numIndexPages := 10; numIndexTuples := 1000;
        spc_random_page_cost := 4; num_sa_scans := 1 |} 1 9 0.25
   <=? 100)%float = true.
Proof.
  apply (adjusted_total_cost_not_raised
           {| indexStartupCost := 0; indexTotalCost := 100; indexSelectivity := 1;
              indexCorrelation := 0; numIndexPages := 10; numIndexTuples := 1000;
              spc_random_page_cost := 4; num_sa_scans := 1 |} 1%float 9 0.25%float);
    first [ lia | reflexivity ].
Defined.

(** C8 fails as stated: with a random page cost of 1 below a sequential page
    cost of 4 (10 index pages, 9 relation pages, ratio 0.25) the total cost
    rises from 100 to 126; with page costs 4 and 1 and a baseline of 2^60
    the subtracted amount is lost in rounding and the total cost stays. *)
Lemma adjust_total_cost_can_raise :
  adjust_total_cost
    {| indexStartupCost := 0; indexTotalCost := 100; indexSelectivity := 1;
       indexCorrelation := 0; numIndexPages := 10; numIndexTuples := 1000;
       spc_random_page_cost := 1; num_sa_scans := 1 |} 4 9 0.25
  = 126%float /\
  (100 <? 126)%float = true /\
  adjust_total_cost
    {| indexStartupCost := 0; indexTotalCost := 0x1p60; indexSelectivity := 1;
       indexCorrelation := 0; numIndexPages := 2; numIndexTuples := 200;
       spc_random_page_cost := 4; num_sa_scans := 1 |} 1 1 0.25
  = 0x1p60%float.
Proof. vm_compute. repeat split; reflexivity. Qed.

(** Both branches: whatever the page counts and the ratio are, the
    adjustment does not raise the total cost when the sequential page cost
    is neither negative nor above the random page cost (the page count not
    negative, the generic model's numbers finite). *)
Theorem adjustment_never_raises :
  forall costs spc_seq_page_cost relpages ratio,
    0 <= relpages < 2 ^ 32 ->
    is_finite (indexTotalCost costs) = true ->
    is_finite (numIndexPages costs) = true ->
    (0 <=? numIndexPages costs)%float = true ->
    is_finite (spc_random_page_cost costs) = true ->
    (0 <=? spc_seq_page_cost)%float = true ->
    (spc_seq_page_cost <=? spc_random_page_cost costs)%float = true ->
    (adjust_total_cost costs spc_seq_page_cost relpages ratio
     <=? indexTotalCost costs)%float = true.
Proof.
  intros costs s relpages ratio Hpages Ft FN HN0 Fr Hs0 Hsr.
  destruct ((int_to_double relpages <? numIndexPages costs)
            && (ratio <? 0.5))%float eqn:Hcond.
  - apply andb_prop in Hcond as [Hb Hr].
    apply adjust_total_cost_le; assumption.
  - unfold adjust_total_cost. rewrite Hcond.
    set (t := indexTotalCost costs) in *. set (N := numIndexPages costs) in *.
    set (r := spc_random_page_cost costs) in *.
    pose proof pow2_1074_lt as [H1074 _].
    apply leb_true in HN0 as (_ & NN & HN0). change (Frank 0) with 0 in HN0.
    apply leb_true in Hs0 as (_ & Ns & Hs0). change (Frank 0) with 0 in Hs0.
    apply leb_true in Hsr as (_ & Nr & Hsr).
    pose proof (proj1 (is_finite_rank r) Fr) as [_ Hr].
    pose proof (proj1 (is_finite_rank t) Ft) as [Nt Ht].
    pose proof (proj1 (is_finite_rank N) FN) as [_ HN].
    assert (Fs : is_finite s = true) by (apply is_finite_rank; split; [exact Ns | blia]).
    assert (Fh : is_finite 0.5 = true) by reflexivity.
    assert (Rh : Frank 0.5 = 2 ^ 1073) by reflexivity.
    assert (H1073 : 0 < 2 ^ 1073) by (apply pow2_pos; blia).
    assert (Hhalf : 2 ^ 1074 = 2 * 2 ^ 1073) by reflexivity.
    (* half the pages: a finite number between 0 and the page count *)
    pose proof (mul_rounds 0.5 N Fh FN) as Hm.
    destruct (rounds_to_upper 1074 _ _ N Hm FN ltac:(rewrite Rh; bnia)) as [Nh Hh].
    destruct (mul_nonneg 0.5 N Fh FN ltac:(blia) HN0) as [_ Hh0].
    assert (Fhn : is_finite (0.5 * N) = true)
      by (apply is_finite_rank; split; [exact Nh | blia]).
    destruct (sub_nonneg_finite r s Fr Fs Hsr Hs0) as [Fd Hd].
    destruct (mul_nonneg (0.5 * N) (r - s) Fhn Fd Hh0 ltac:(blia)) as [Na Ha].
    destruct (sub_nonneg_le t (0.5 * N * (r - s)) Nt ltac:(blia) Na Ha) as [Nt1 Ht1].
    apply leb_true. repeat split; assumption.
Qed.

Lemma adjustment_never_raises_witness :
  (adjust_total_cost
     {| indexStartupCost := 0; indexTotalCost := 100; indexSelectivity := 1;
        indexCorrelation := 0; numIndexPages := 10; numIndexTuples := 1000;
        spc_random_page_cost := 4; num_sa_scans := 1 |} 1 20 0.75
   <=? 100)%float = true.
Proof.
  apply (adjustment_never_raises
           {| indexStartupCost := 0; indexTotalCost := 100; indexSelectivity := 1;
              indexCorrelation := 0; numIndexPages := 10; numIndexTuples := 1000;
              spc_random_page_cost := 4; num_sa_scans := 1 |} 1%float 20 0.75%float);
    first [ lia | reflexivity ].
Defined.

(** The reported selectivity is the smaller of the ratio and the generic
    model's selectivity, and the startup cost is the total cost. *)
Theorem selectivity_capped_by_ratio :
  forall costs spc_seq_page_cost relpages ratio,
    is_nan ratio = false -> is_nan (indexSelectivity costs) = false ->
    let est := finish_estimate costs spc_seq_page_cost relpages ratio in
    est_indexSelectivity est = min_double (indexSelectivity costs) ratio /\
    (est_indexSelectivity est <=? ratio)%float = true /\
    (est_indexSelectivity est <=? indexSelectivity costs)%float = true /\
    est_indexStartupCost est = est_indexTotalCost est.
Proof.
  intros costs s relpages ratio Nr Ns est. subst est.
  cbn [finish_estimate est_indexSelectivity est_indexStartupCost est_indexTotalCost].
  unfold min_double.
  rewrite (ltb_rank _ _ Nr Ns), (leb_rank _ _ Ns Nr).
  destruct (Z.ltb_spec (Frank ratio) (Frank (indexSelectivity costs))),
    (Z.leb_spec (Frank (indexSelectivity costs)) (Frank ratio)); try lia;
    repeat split; try reflexivity; apply leb_true; repeat split; try assumption; lia.
Qed.

Lemma selectivity_capped_by_ratio_witness :
  est_indexSelectivity
    (finish_estimate
       {| indexStartupCost := 0; indexTotalCost := 100; indexSelectivity := 1;
          indexCorrelation := 0; numIndexPages := 10; numIndexTuples := 1000;
          spc_random_page_cost := 4; num_sa_scans := 1 |} 1 20 0.25)
  = min_double 1 0.25.
Proof.
  apply (selectivity_capped_by_ratio
           {| indexStartupCost := 0; indexTotalCost := 100; indexSelectivity := 1;
              indexCorrelation := 0; numIndexPages := 10; numIndexTuples := 1000;
              spc_random_page_cost := 4; num_sa_scans := 1 |} 1%float 20 0.25%float);
    reflexivity.
Defined.

(** ** The ratio of lists to visit *)

(** C9: for a probe count and a list count of at least 1 (also when the
    probe count exceeds the list count) the ratio of lists to visit is the
    smaller of [probes / lists] and 1.0; it lies in (0, 1], and the number
    of index tuples handed to the generic cost model, [tuples * ratio], does
    not exceed the index's tuple count [tuples >= 0]. *)
Theorem ratio_in_unit_interval :
  forall probes lists,
    1 <= probes <= INT_MAX -> 1 <= lists <= INT_MAX ->
    cost_ratio probes lists
    = min_double (int_to_double probes / int_to_double lists) 1 /\
    (0 <? cost_ratio probes lists)%float = true /\
    (cost_ratio probes lists <=? 1)%float = true /\
    forall path,
      (0 <=? tuples (indexinfo path))%float = true ->
      numIndexTuples (generic_input path (cost_ratio probes lists))
      = (tuples (indexinfo path) * cost_ratio probes lists)%float /\
      (numIndexTuples (generic_input path (cost_ratio probes lists))
       <=? tuples (indexinfo path))%float = true.
Proof.
  intros probes lists Hp HL.
  destruct (cost_ratio_range probes lists Hp HL) as (Hn & H0 & H1).
  split; [|split; [exact H0|split; [exact H1|]]].
  - unfold cost_ratio, min_double.
    set (q := (int_to_double probes / int_to_double lists)%float) in *.
    assert (N1 : is_nan 1 = false) by reflexivity.
    rewrite (ltb_rank 1 q N1 Hn), (leb_rank q 1 Hn N1).
    destruct (Z.ltb_spec (Frank 1) (Frank q)), (Z.leb_spec (Frank q) (Frank 1));
      try reflexivity; lia.
  - intros path Ht. split; [reflexivity|].
    cbn [generic_input set_numIndexTuples numIndexTuples].
    apply mul_le_of_factor_le_one; assumption.
Qed.

Lemma ratio_in_unit_interval_witness :
  cost_ratio 7 3 = min_double (int_to_double 7 / int_to_double 3) 1 /\
  (0 <? cost_ratio 7 3)%float = true /\
  (cost_ratio 7 3 <=? 1)%float = true.
Proof.
  destruct (ratio_in_unit_interval 7 3) as (H1 & H2 & H3 & _);
    [unfold INT_MAX; lia | unfold INT_MAX; lia |].
  repeat split; assumption.
Defined.

(** ** Streaming off *)

(** C10: with streaming off the estimate does not depend on
    [ivfflat_max_probes]: two settings that agree on [ivfflat_probes] give
    the same estimate for the same query, and the estimate is defined. *)
Theorem max_probes_ignored_without_streaming :
  forall getlists generic pagecosts g1 g2 root path loop_count,
    ivfflat_streaming g1 = false -> ivfflat_streaming g2 = false ->
    ivfflat_probes g1 = ivfflat_probes g2 ->
    ivfflatcostestimate getlists generic pagecosts g1 root path loop_count
    = ivfflatcostestimate getlists generic pagecosts g2 root path loop_count /\
    exists est,
      ivfflatcostestimate getlists generic pagecosts g1 root path loop_count = Some est.
Proof.
  intros getlists generic pagecosts g1 g2 root path loop_count Hs1 Hs2 Hp.
  unfold ivfflatcostestimate, cost_probes. rewrite Hs1, Hs2, Hp.
  split; [reflexivity|].
  destruct (indexorderbys path); eauto.
Qed.

Lemma max_probes_ignored_without_streaming_witness :
  ivfflatcostestimate (fun _ => 100) sample_genericcostestimate (fun _ => 1%float)
    {| ivfflat_probes := 10; ivfflat_max_probes := -1; ivfflat_streaming := false |}
    {| limit_tuples := 50 |} (sample_path 100000 [0.5%float] 10) 1
  = ivfflatcostestimate (fun _ => 100) sample_genericcostestimate (fun _ => 1%float)
    {| ivfflat_probes := 10; ivfflat_max_probes := 3; ivfflat_streaming := false |}
    {| limit_tuples := 50 |} (sample_path 100000 [0.5%float] 10) 1.
Proof.
  apply (max_probes_ignored_without_streaming (fun _ => 100) sample_genericcostestimate
           (fun _ => 1%float)
           {| ivfflat_probes := 10; ivfflat_max_probes := -1; ivfflat_streaming := false |}
           {| ivfflat_probes := 10; ivfflat_max_probes := 3; ivfflat_streaming := false |});
    reflexivity.
Defined.

(** * Part 4: further properties of the cost model *)

(** ** The ratio of lists to visit, in terms of the two counts *)

Lemma cost_ratio_rank p L :
  1 <= p <= INT_MAX -> 1 <= L <= INT_MAX ->
  is_nan (cost_ratio p L) = false /\
  Frank (cost_ratio p L)
  = Z.min (Frank (int_to_double p / int_to_double L)) (2 ^ 1074).
Proof.
  intros Hp HL. destruct (int_quotient_bounds p L Hp HL) as (Hn & _ & _).
  unfold cost_ratio. set (q := (int_to_double p / int_to_double L)%float) in *.
  assert (N1 : is_nan 1 = false) by reflexivity.
  rewrite (ltb_rank 1 q N1 Hn), Frank_one.
  destruct (Z.ltb_spec (2 ^ 1074) (Frank q)).
  - split; [reflexivity|]. rewrite Frank_one. blia.
  - split; [exact Hn|]. blia.
Qed.

(** The ratio is exactly 1.0 when, and only when, the probes cover the
    lists; otherwise it is below 1.0. *)
Theorem cost_ratio_one_iff probes lists :
  1 <= probes <= INT_MAX -> 1 <= lists <= INT_MAX ->
  (cost_ratio probes lists = 1%float <-> lists <= probes) /\
  ((cost_ratio probes lists <? 1)%float = true <-> probes < lists).
Proof.
  intros Hp HL.
  destruct (cost_ratio_rank probes lists Hp HL) as [Nr Rr].
  destruct (int_quotient_bounds probes lists Hp HL) as (Hn & H0 & Hb).
  pose proof pow2_1074_lt as [H1074 _].
  assert (N1 : is_nan 1 = false) by reflexivity.
  assert (Hlt : probes < lists -> Frank (cost_ratio probes lists) < 2 ^ 1074).
  { intros Hlt.
    assert (Fz : is_finite 0x1.fffffffcp-1 = true) by reflexivity.
    assert (Rz : Frank 0x1.fffffffcp-1 = (2 ^ 31 - 1) * 2 ^ 1043) by reflexivity.
    destruct (Hb _ Fz) as [_ Hup].
    assert (Hq : Frank (int_to_double probes / int_to_double lists)
                 <= (2 ^ 31 - 1) * 2 ^ 1043).
    { rewrite <- Rz. apply Hup. rewrite Rz. unfold INT_MAX in *.
      change (2 ^ 1074) with (2 ^ 31 * 2 ^ 1043).
      assert (0 < 2 ^ 1043) by (apply pow2_pos; blia). bnia. }
    rewrite Rr. change (2 ^ 1074) with (2 ^ 31 * 2 ^ 1043) in *.
    assert (0 < 2 ^ 1043) by (apply pow2_pos; blia). bnia. }
  split; split.
  - intros Heq. destruct (Z_le_gt_dec lists probes) as [|Hgt]; [assumption|exfalso].
    specialize (Hlt ltac:(blia)). rewrite Heq, Frank_one in Hlt. blia.
  - intros Hle. apply cost_ratio_saturates; blia.
  - intros H. apply ltb_true in H as (_ & _ & H). rewrite Frank_one in H.
    destruct (Z_le_gt_dec lists probes) as [Hle|]; [exfalso|blia].
    rewrite (cost_ratio_saturates probes lists) in H by blia. rewrite Frank_one in H. blia.
  - intros H. apply ltb_true. rewrite Frank_one. repeat split; auto.
Qed.

Lemma cost_ratio_one_iff_witness :
  (cost_ratio 7 3 = 1%float <-> 3 <= 7) /\
  ((cost_ratio 7 3 <? 1)%float = true <-> 7 < 3).
Proof. apply (cost_ratio_one_iff 7 3); unfold INT_MAX; lia. Defined.

(** The test [ratio < 0.5] of the page-cost adjustment (line 162) holds
    exactly when fewer than half of the lists are probed: the rounding of
    the division never moves the ratio across one half. *)
Theorem cost_ratio_half probes lists :
  1 <= probes <= INT_MAX -> 1 <= lists <= INT_MAX ->
  (cost_ratio probes lists <? 0.5)%float = (2 * probes <? lists).
Proof.
  intros Hp HL.
  destruct (cost_ratio_rank probes lists Hp HL) as [Nr Rr].
  destruct (int_quotient_bounds probes lists Hp HL) as (Hn & H0 & Hb).
  pose proof pow2_1074_lt as [H1074 _].
  assert (Nh : is_nan 0.5 = false) by reflexivity.
  assert (Rh : Frank 0.5 = 2 ^ 1073) by reflexivity.
  assert (H1073 : 0 < 2 ^ 1073) by (apply pow2_pos; blia).
  assert (Hhalf : 2 ^ 1074 = 2 * 2 ^ 1073) by reflexivity.
  rewrite (ltb_rank _ _ Nr Nh), Rh, Rr.
  destruct (Z.ltb_spec (2 * probes) lists) as [Hlt|Hge].
  - apply Z.ltb_lt.
    assert (Fz : is_finite 0x1.fffffffcp-2 = true) by reflexivity.
    assert (Rz : Frank 0x1.fffffffcp-2 = (2 ^ 31 - 1) * 2 ^ 1042) by reflexivity.
    destruct (Hb _ Fz) as [_ Hup].
    assert (Hq : Frank (int_to_double probes / int_to_double lists)
                 <= (2 ^ 31 - 1) * 2 ^ 1042).
    { rewrite <- Rz. apply Hup. rewrite Rz. unfold INT_MAX in *.
      change (2 ^ 1074) with (2 ^ 32 * 2 ^ 1042).
      assert (0 < 2 ^ 1042) by (apply pow2_pos; blia). bnia. }
    change (2 ^ 1073) with (2 ^ 31 * 2 ^ 1042).
    assert (0 < 2 ^ 1042) by (apply pow2_pos; blia). bnia.
  - apply Z.ltb_ge.
    assert (Fz : is_finite 0.5 = true) by reflexivity.
    destruct (Hb _ Fz) as [Hlo _]. rewrite Rh in Hlo.
    specialize (Hlo ltac:(bnia)). blia.
Qed.

Lemma cost_ratio_half_witness :
  (cost_ratio 2 5 <? 0.5)%float = (2 * 2 <? 5).
Proof. apply (cost_ratio_half 2 5); unfold INT_MAX; lia. Defined.

(** More probes never give a smaller ratio, although each ratio is a
    rounded quotient. *)
Theorem cost_ratio_monotone p1 p2 lists :
  1 <= p1 <= p2 -> p2 <= INT_MAX -> 1 <= lists <= INT_MAX ->
  (cost_ratio p1 lists <=? cost_ratio p2 lists)%float = true.
Proof.
  intros Hp Hp2 HL.
  destruct (cost_ratio_rank p1 lists ltac:(lia) HL) as [N1 R1].
  destruct (cost_ratio_rank p2 lists ltac:(lia) HL) as [N2 R2].
  apply leb_true. split; [exact N1|]. split; [exact N2|].
  pose proof pow2_1074_lt as [H1074 _].
  destruct (Z_le_gt_dec lists p2) as [Hsat|Hlt].
  - (* the second ratio is 1 *)
    rewrite (cost_ratio_saturates p2 lists) by lia. rewrite Frank_one, R1. blia.
  - destruct (Z.eq_dec p1 p2) as [->|Hne]; [lia|].
    (* a binary64 number between the two quotients *)
    destruct (int_quotient_bounds p1 lists ltac:(lia) HL) as (_ & _ & Hb1).
    destruct (int_quotient_bounds p2 lists ltac:(lia) HL) as (_ & _ & Hb2).
    assert (H53 : 0 < 2 ^ 53) by (apply pow2_pos; lia).
    assert (HL53 : lists < 2 ^ 53)
      by (unfold INT_MAX in HL; change (2 ^ 53) with 9007199254740992; lia).
    assert (Hs : 2 ^ 1074 = 2 ^ 53 * 2 ^ 1021) by reflexivity.
    assert (H1021 : 0 < 2 ^ 1021) by (apply pow2_pos; lia).
    set (k := p2 * 2 ^ 53 / lists).
    pose proof (Z.div_mod (p2 * 2 ^ 53) lists ltac:(lia)) as Hdm.
    pose proof (Z.mod_pos_bound (p2 * 2 ^ 53) lists ltac:(lia)) as Hmb.
    fold k in Hdm.
    assert (Hk : 0 < k < 2 ^ 53).
    { split.
      - apply Z.div_str_pos. clear - Hp HL53 HL H53 Hlt.
        set (A := 2 ^ 53) in *. clearbody A. nia.
      - apply Z.div_lt_upper_bound; [lia|]. clear - Hlt H53 HL.
        set (A := 2 ^ 53) in *. clearbody A. nia. }
    destruct (representable k (-53) Hk ltac:(lia)) as (z & Fz & Rz).
    change (-53 + 1074) with 1021 in Rz.
    destruct (Hb1 z Fz) as [_ Hup]. destruct (Hb2 z Fz) as [Hlo _].
    rewrite R1, R2. rewrite Rz, Hs in Hup, Hlo. rewrite Hs.
    clear Hb1 Hb2 R1 R2 Rz Hs H1074.
    set (q1 := Frank (int_to_double p1 / int_to_double lists)) in *.
    set (q2 := Frank (int_to_double p2 / int_to_double lists)) in *.
    set (m := p2 * 2 ^ 53 mod lists) in *.
    set (A := 2 ^ 53) in *. set (B := 2 ^ 1021) in *.
    clearbody q1 q2 m k A B.
    assert (k * B <= q2) by (apply Hlo; nia).
    assert (q1 <= k * B).
    { apply Hup. assert (p1 * A <= k * lists) by nia. nia. }
    lia.
Qed.

Lemma cost_ratio_monotone_witness :
  (cost_ratio 2 7 <=? cost_ratio 3 7)%float = true.
Proof. apply (cost_ratio_monotone 2 3 7); unfold INT_MAX; lia. Defined.

(** ** The selectivity of the restrictions is a selectivity *)

Lemma selectivity_step_range acc r :
  (0 <=? acc)%float = true -> (acc <=? 1)%float = true ->
  (0 <=? selectivity_step acc r)%float = true /\
  (selectivity_step acc r <=? acc)%float = true.
Proof.
  intros H0 H1. destruct (unit_interval_finite acc H0 H1) as [Fa Ra].
  pose proof (proj1 (is_finite_rank acc) Fa) as [Na _].
  unfold selectivity_step, counted_selec.
  destruct ((0 <=? norm_selec r) && (norm_selec r <=? 1)
            && negb (norm_selec r =? DEFAULT_INEQ_SEL))%float eqn:Hc.
  - apply andb_prop in Hc as [Hc _]. apply andb_prop in Hc as [Hs0 Hs1].
    destruct (unit_interval_finite _ Hs0 Hs1) as [Fs Rs].
    pose proof (mul_rounds acc (norm_selec r) Fa Fs) as Hm.
    assert (F0 : is_finite 0 = true) by reflexivity.
    destruct (rounds_to_upper 1074 _ _ acc Hm Fa ltac:(bnia)) as [Nm Hup].
    destruct (rounds_to_lower 1074 _ _ 0%float Hm F0 ltac:(change (Frank 0) with 0; bnia))
      as [_ Hlo].
    split; apply leb_true; repeat split; try assumption; try reflexivity.
  - split; [exact H0|]. apply leb_true. repeat split; try assumption. blia.
Qed.

Lemma fold_selectivity_range l acc :
  (0 <=? acc)%float = true -> (acc <=? 1)%float = true ->
  (0 <=? fold_left selectivity_step l acc)%float = true /\
  (fold_left selectivity_step l acc <=? acc)%float = true.
Proof.
  revert acc. induction l as [|r l IH]; intros acc H0 H1; cbn [fold_left].
  - split; [exact H0|]. apply leb_true in H0 as (_ & Na & _).
    apply leb_true. repeat split; try assumption. blia.
  - destruct (selectivity_step_range acc r H0 H1) as [S0 S1].
    assert (S1' : (selectivity_step acc r <=? 1)%float = true).
    { apply leb_true in S1 as (N1 & _ & L1). apply leb_true in H1 as (_ & N2 & L2).
      apply leb_true. repeat split; try assumption. blia. }
    destruct (IH _ S0 S1') as [I0 I1]. split; [exact I0|].
    apply leb_true in I1 as (N1 & _ & L1). apply leb_true in S1 as (_ & N2 & L2).
    apply leb_true. repeat split; try assumption. blia.
Qed.

(** Whatever the selectivities stored in the restrictions are (negative,
    above 1, NaN), their combination lies in [0, 1], and more restrictions
    never give a larger one. *)
Theorem restrict_selectivity_range :
  forall l,
    (0 <=? restrict_selectivity l)%float = true /\
    (restrict_selectivity l <=? 1)%float = true /\
    forall l', (restrict_selectivity (l ++ l') <=? restrict_selectivity l)%float = true.
Proof.
  intros l. unfold restrict_selectivity.
  destruct (fold_selectivity_range l 1%float eq_refl eq_refl) as [H0 H1].
  split; [exact H0|]. split; [exact H1|].
  intros l'. rewrite fold_left_app.
  apply (fold_selectivity_range l' _ H0 H1).
Qed.

(** ** The adaptive estimate is a count *)

Lemma tuplesPerList_bounds path lists :
  is_finite (tuples (indexinfo path)) = true ->
  (0 <=? tuples (indexinfo path))%float = true ->
  1 <= lists <= INT_MAX ->
  (0 <=? tuplesPerList path lists)%float = true /\
  (tuplesPerList path lists <=? tuples (indexinfo path))%float = true.
Proof.
  intros Ft Ht HL. unfold tuplesPerList.
  set (t := tuples (indexinfo path)) in *.
  set (sel := restrict_selectivity (indrestrictinfo (indexinfo path))).
  destruct (fold_selectivity_range (indrestrictinfo (indexinfo path)) 1%float
              eq_refl eq_refl) as [S0 S1].
  fold (restrict_selectivity (indrestrictinfo (indexinfo path))) in S0, S1.
  fold sel in S0, S1.
  destruct (unit_interval_finite sel S0 S1) as [Fs Rs].
  apply leb_true in Ht as (_ & Nt & Ht). change (Frank 0) with 0 in Ht.
  pose proof pow2_1074_lt as [H1074 _].
  pose proof (mul_rounds t sel Ft Fs) as Hm.
  assert (F0 : is_finite 0 = true) by reflexivity.
  destruct (rounds_to_upper 1074 _ _ t Hm Ft ltac:(bnia)) as [Nm Hup].
  destruct (rounds_to_lower 1074 _ _ 0%float Hm F0 ltac:(change (Frank 0) with 0; bnia))
    as [_ Hlo].
  change (Frank 0) with 0 in Hlo.
  pose proof (proj1 (is_finite_rank t) Ft) as [_ Htb].
  assert (Fm : is_finite (t * sel) = true) by (apply is_finite_rank; split; [exact Nm|blia]).
  unfold INT_MAX in HL.
  destruct (int_to_double_rank lists ltac:(blia)) as [_ RL].
  pose proof (int_to_double_finite lists ltac:(blia)) as FL.
  assert (HxL : 0 < Frank (int_to_double lists)) by (rewrite RL; bnia).
  destruct (div_nonneg (t * sel) (int_to_double lists) Nm Hlo FL HxL) as [Nq Hq0].
  assert (Hqup : Frank (t * sel / int_to_double lists) <= Frank (t * sel)).
  { destruct (Z.eq_dec (Frank (t * sel)) 0) as [Hz|Hnz].
    - (* zero divided by a positive number is zero *)
      destruct (positive_finite_form _ FL HxL) as (mL & eL & EL).
      unfold Frank in *. rewrite FloatAxioms.div_spec. unfold SF64div. rewrite EL.
      rewrite is_finite_spec in Fm. pose proof (Prim2SF_valid (t * sel)) as Vm.
      destruct (Prim2SF (t * sel)) as [s|s| |s m e];
        try (cbn [SFdiv SFrank]; blia); try discriminate Fm.
      pose proof (rank_finite_bounds _ _ _ Vm). cbn [SFrank] in Hz. cbv zeta in Hz.
      destruct s; blia.
    - apply (div_upper (t * sel) (int_to_double lists) (t * sel) Fm FL ltac:(blia) HxL Fm).
      rewrite RL. bnia. }
  split; apply leb_true; repeat split; try assumption; try reflexivity; blia.
Qed.

(** For an index of [tuples >= 0] tuples and at least one list, the rows
    per list lie between 0 and [tuples], and the adaptive estimate, when
    it is defined, is a count: it is never negative. *)
Theorem EstimateProbes_nonneg root path lists :
  is_finite (tuples (indexinfo path)) = true ->
  (0 <=? tuples (indexinfo path))%float = true ->
  1 <= lists <= INT_MAX ->
  (0 <=? tuplesPerList path lists)%float = true /\
  (tuplesPerList path lists <=? tuples (indexinfo path))%float = true /\
  forall n, EstimateProbes root path lists = Some n -> 0 <= n <= INT_MAX.
Proof.
  intros Ft Ht HL.
  destruct (tuplesPerList_bounds path lists Ft Ht HL) as [T0 T1].
  split; [exact T0|]. split; [exact T1|]. intros n. unfold EstimateProbes.
  destruct (limit_tuples root <? 0)%float eqn:Hlim.
  { intros H. injection H as <-. unfold INT_MAX. blia. }
  cbv zeta.
  destruct (tuplesPerList path lists =? 0)%float eqn:Hz.
  { intros H. injection H as <-. blia. }
  intros Hn.
  destruct (double_to_int_truncates _ _ Hn) as (Hr & _ & _ & Hpos & _).
  split; [|blia]. apply Hpos.
  (* the quotient is not negative *)
  set (tpl := tuplesPerList path lists) in *. set (lim := limit_tuples root) in *.
  apply leb_true in T0 as (_ & Ntpl & T0). change (Frank 0) with 0 in T0.
  apply leb_true in T1 as (_ & _ & T1).
  pose proof (proj1 (is_finite_rank _) Ft) as [_ Htb].
  assert (N0 : is_nan 0 = false) by reflexivity.
  rewrite (eqb_rank tpl 0 Ntpl N0) in Hz. change (Frank 0) with 0 in Hz.
  apply Z.eqb_neq in Hz.
  assert (Ftpl : is_finite tpl = true) by (apply is_finite_rank; split; [exact Ntpl|blia]).
  assert (Nlim : is_nan lim = false).
  { destruct (is_nan lim) eqn:E; [exfalso|reflexivity].
    unfold double_to_int in Hn. rewrite FloatAxioms.div_spec in Hn. unfold SF64div in Hn.
    rewrite is_nan_spec in E. destruct (Prim2SF lim); discriminate. }
  rewrite (ltb_rank lim 0 Nlim N0) in Hlim. change (Frank 0) with 0 in Hlim.
  apply Z.ltb_ge in Hlim.
  destruct (div_nonneg lim tpl Nlim Hlim Ftpl ltac:(blia)) as [Nq Hq].
  apply leb_true. repeat split; try assumption.
Qed.

Lemma EstimateProbes_nonneg_witness :
  (0 <=? tuplesPerList (sample_path 1000 [0.5%float] 10) 100)%float = true /\
  (tuplesPerList (sample_path 1000 [0.5%float] 10) 100 <=? 1000)%float = true /\
  0 <= 10 <= INT_MAX.
Proof.
  destruct (EstimateProbes_nonneg {| limit_tuples := 50 |}
              (sample_path 1000 [0.5%float] 10) 100) as (A & B & C);
    [reflexivity | reflexivity | unfold INT_MAX; lia |].
  split; [exact A|]. split; [exact B|].
  apply (C 10). vm_compute. reflexivity.
Defined.


(** ** When the estimate is defined *)

Lemma double_to_int_some_range q n :
  double_to_int q = Some n ->
  (-2147483649 <? q)%float = true /\ (q <? 2147483648)%float = true.
Proof.
  unfold double_to_int. intros H.
  destruct (SFtrunc (Prim2SF q)) as [k|] eqn:Hk; [|discriminate].
  destruct ((INT_MIN <=? k) && (k <=? INT_MAX)) eqn:Hrange; [|discriminate].
  injection H as <-. apply andb_prop in Hrange as [H1 H2].
  apply Z.leb_le in H1, H2. unfold INT_MIN, INT_MAX in *.
  destruct (SFtrunc_spec _ _ (Prim2SF_valid q) Hk) as (Hfl & Hpos & Hneg).
  fold (Frank q) in Hfl, Hpos, Hneg.
  assert (Nq : is_nan q = false).
  { rewrite is_nan_spec. destruct (Prim2SF q); try discriminate; reflexivity. }
  pose proof pow2_1074_lt as [H1074 _].
  split; apply ltb_true; repeat split; try assumption; try reflexivity.
  - change (Frank (-2147483649)) with (- (2147483649 * 2 ^ 1074)). bnia.
  - change (Frank 2147483648) with (2147483648 * 2 ^ 1074). bnia.
Qed.

(** The estimate is defined exactly when the limit is negative, or the rows
    per list are zero, or the integer part of their quotient is an [int];
    and the cost estimate is undefined exactly for an ordered path in
    streaming mode whose probe estimate is undefined. *)
Theorem estimate_defined_iff :
  forall getlists generic pagecosts g root path loop_count lists,
    ((exists n, EstimateProbes root path lists = Some n) <->
     (limit_tuples root <? 0)%float = true \/
     (tuplesPerList path lists =? 0)%float = true \/
     ((-2147483649 <? limit_tuples root / tuplesPerList path lists)
      && (limit_tuples root / tuplesPerList path lists <? 2147483648))%float = true) /\
    (ivfflatcostestimate getlists generic pagecosts g root path loop_count = None <->
     indexorderbys path <> [] /\ ivfflat_streaming g = true /\
     EstimateProbes root path (getlists (indexoid (indexinfo path))) = None).
Proof.
  intros getlists generic pagecosts g root path loop_count lists. split.
  - unfold EstimateProbes.
    destruct (limit_tuples root <? 0)%float; [split; eauto|].
    cbv zeta. destruct (tuplesPerList path lists =? 0)%float; [split; eauto|].
    split.
    + intros [n Hn]. right. right.
      destruct (double_to_int_some_range _ _ Hn) as [H1 H2]. rewrite H1, H2. reflexivity.
    + intros [H|[H|H]]; try discriminate.
      apply andb_prop in H as [H1 H2]. now apply double_to_int_defined.
  - unfold ivfflatcostestimate, cost_probes.
    destruct (indexorderbys path) as [|o os].
    + split; [discriminate|]. intros [H _]. now elim H.
    + destruct (ivfflat_streaming g).
      * destruct (EstimateProbes root path (getlists (indexoid (indexinfo path)))).
        -- split; [discriminate|]. intros (_ & _ & H). discriminate.
        -- split; [|reflexivity]. intros _. repeat split. discriminate.
      * split; [discriminate|]. intros (_ & H & _). discriminate.
Qed.

(** ** The probe decision in streaming mode *)

(** In streaming mode the ceiling, when set, is never exceeded, and wins
    over the configured probes when it is below them; the configured probes
    are a floor whenever the ceiling is absent or not below them. *)
Theorem streaming_probes_bounds :
  forall g root path lists p,
    ivfflat_streaming g = true ->
    cost_probes g root path lists = Some p ->
    (ivfflat_max_probes g <> -1 -> p <= ivfflat_max_probes g) /\
    (ivfflat_max_probes g <> -1 -> ivfflat_max_probes g <= ivfflat_probes g ->
     p = ivfflat_max_probes g) /\
    (ivfflat_max_probes g = -1 \/ ivfflat_probes g <= ivfflat_max_probes g ->
     ivfflat_probes g <= p).
Proof.
  intros g root path lists p Hs. unfold cost_probes. rewrite Hs.
  destruct (EstimateProbes root path lists) as [est|]; [|discriminate].
  cbv zeta. intros H. injection H as <-.
  destruct (Z.eqb_spec (ivfflat_max_probes g) (-1)); cbn [negb]; repeat split; blia.
Qed.

Lemma streaming_probes_bounds_witness :
  cost_probes {| ivfflat_probes := 1; ivfflat_max_probes := 3; ivfflat_streaming := true |}
    {| limit_tuples := 50 |} (sample_path 10 [] 10) 5 = Some 3 /\
  3 <= 3 /\ 1 <= 3.
Proof.
  destruct (streaming_probes_bounds
              {| ivfflat_probes := 1; ivfflat_max_probes := 3; ivfflat_streaming := true |}
              {| limit_tuples := 50 |} (sample_path 10 [] 10) 5 3)
    as (A & _ & C); [reflexivity | vm_compute; reflexivity |].
  split; [vm_compute; reflexivity|].
  split; [apply A; cbn; lia | apply C; right; cbn; lia].
Defined.

(** Raising the configured probes or the ceiling (or removing the ceiling)
    never lowers the probe count of a query. *)
Theorem streaming_probes_monotone :
  forall g g' root path lists p,
    ivfflat_streaming g = true -> ivfflat_streaming g' = true ->
    ivfflat_probes g <= ivfflat_probes g' ->
    ivfflat_max_probes g' = -1 \/
      (ivfflat_max_probes g <> -1 /\ ivfflat_max_probes g <= ivfflat_max_probes g') ->
    cost_probes g root path lists = Some p ->
    exists p', cost_probes g' root path lists = Some p' /\ p <= p'.
Proof.
  intros g g' root path lists p Hs Hs' Hp Hm. unfold cost_probes. rewrite Hs, Hs'.
  destruct (EstimateProbes root path lists) as [est|]; [|discriminate].
  cbv zeta. intros H. injection H as <-.
  eexists. split; [reflexivity|].
  destruct (Z.eqb_spec (ivfflat_max_probes g) (-1)),
    (Z.eqb_spec (ivfflat_max_probes g') (-1)); cbn [negb]; blia.
Qed.

Lemma streaming_probes_monotone_witness :
  exists p',
    cost_probes {| ivfflat_probes := 2; ivfflat_max_probes := -1; ivfflat_streaming := true |}
      {| limit_tuples := 50 |} (sample_path 10 [] 10) 5 = Some p' /\
    3 <= p'.
Proof.
  apply (streaming_probes_monotone
           {| ivfflat_probes := 1; ivfflat_max_probes := 3; ivfflat_streaming := true |}
           {| ivfflat_probes := 2; ivfflat_max_probes := -1; ivfflat_streaming := true |}
           {| limit_tuples := 50 |} (sample_path 10 [] 10) 5 3);
    [reflexivity | reflexivity | cbn; lia | left; reflexivity | vm_compute; reflexivity].
Defined.

(** ** All lists probed *)

(** When the probe count covers the lists of an ordered path, the generic
    model is asked about all the tuples of the index, the total cost gets
    the half discount of the random page cost, and the reported
    selectivity is the generic one capped at 1. *)
Theorem saturated_estimate :
  forall getlists generic pagecosts g root path loop_count p,
    indexorderbys path <> [] ->
    1 <= getlists (indexoid (indexinfo path)) <= p -> p <= INT_MAX ->
    cost_probes g root path (getlists (indexoid (indexinfo path))) = Some p ->
    let costs :=
      generic root path loop_count
        (set_numIndexTuples zero_costs (tuples (indexinfo path))) in
    let seq := pagecosts (reltablespace (indexinfo path)) in
    exists est,
      ivfflatcostestimate getlists generic pagecosts g root path loop_count = Some est /\
      est_indexTotalCost est
      = (indexTotalCost costs
         - 0.5 * numIndexPages costs * (spc_random_page_cost costs - seq))%float /\
      est_indexSelectivity est
      = (if (1 <? indexSelectivity costs)%float then 1%float else indexSelectivity costs) /\
      est_indexPages est = numIndexPages costs.
Proof.
  intros getlists generic pagecosts g root path loop_count p Ho HL Hp Hc costs seq.
  unfold ivfflatcostestimate.
  destruct (indexorderbys path) as [|o os]; [now elim Ho|].
  cbv zeta. rewrite Hc.
  rewrite (cost_ratio_saturates p _ HL Hp).
  unfold generic_input. rewrite mul_one_r. fold costs. fold seq.
  eexists. split; [reflexivity|].
  unfold finish_estimate, adjust_total_cost.
  cbn [est_indexTotalCost est_indexSelectivity est_indexPages].
  change (1 <? 0.5)%float with false. rewrite andb_false_r.
  repeat split; reflexivity.
Qed.

Lemma saturated_estimate_witness :
  exists est,
    ivfflatcostestimate (fun _ => 5) sample_genericcostestimate (fun _ => 1%float)
      {| ivfflat_probes := 10; ivfflat_max_probes := -1; ivfflat_streaming := false |}
      {| limit_tuples := -1 |} (sample_path 1000 [] 10) 1 = Some est /\
    est_indexPages est
    = numIndexPages
        (sample_genericcostestimate {| limit_tuples := -1 |} (sample_path 1000 [] 10) 1
           (set_numIndexTuples zero_costs 1000)).
Proof.
  destruct (saturated_estimate (fun _ => 5) sample_genericcostestimate (fun _ => 1%float)
              {| ivfflat_probes := 10; ivfflat_max_probes := -1; ivfflat_streaming := false |}
              {| limit_tuples := -1 |} (sample_path 1000 [] 10) 1 10)
    as (est & H1 & _ & _ & H4).
  - discriminate.
  - cbn; lia.
  - unfold INT_MAX; lia.
  - reflexivity.
  - exists est. split; [exact H1 | exact H4].
Defined.

(** ** The build phases *)

(** The four phase codes being distinct, a code has a name exactly when it
    is one of them, and the name identifies the phase. *)
Theorem buildphasename_identifies_phase :
  forall i k a l,
    NoDup [i; k; a; l] ->
    (forall n, ivfflatbuildphasename i k a l n = None <-> ~ In n [i; k; a; l]) /\
    (forall n m s,
       ivfflatbuildphasename i k a l n = Some s ->
       ivfflatbuildphasename i k a l m = Some s -> n = m).
Proof.
  intros i k a l Hnd. split.
  - intros n. unfold ivfflatbuildphasename. cbn [In].
    destruct (Z.eqb_spec n i), (Z.eqb_spec n k), (Z.eqb_spec n a), (Z.eqb_spec n l);
      split; try discriminate; try (intros H; exfalso; apply H; auto; fail);
      intros _; intuition congruence.
  - intros n m s. unfold ivfflatbuildphasename.
    destruct (Z.eqb_spec n i), (Z.eqb_spec n k), (Z.eqb_spec n a), (Z.eqb_spec n l),
      (Z.eqb_spec m i), (Z.eqb_spec m k), (Z.eqb_spec m a), (Z.eqb_spec m l);
      intros H1 H2; try discriminate; try congruence.
Qed.

Lemma buildphasename_identifies_phase_witness :
  (ivfflatbuildphasename 1 2 3 4 7 = None <-> ~ In 7 [1; 2; 3; 4]) /\
  ivfflatbuildphasename 1 2 3 4 3 = Some "assigning tuples"%string.
Proof.
  split; [|reflexivity].
  apply (buildphasename_identifies_phase 1 2 3 4).
  repeat constructor; cbn; intuition discriminate.
Defined.
